(** * The sequencer-batch-appended handler of the data transport layer

    A shallow embedding of
    [src/services/l1-ingestion/handlers/sequencer-batch-appended.ts]:
    the three handlers of [handleEventsSequencerBatchAppended]
    ([getExtraData], [parseEvent], [storeEvent]), the calldata helpers
    ([parseSequencerBatchContext], [parseSequencerBatchTransaction]), the
    codec wrapper [maybeDecodeSequencerBatchTransaction] and the soft-fork
    validator [validateBatchTransaction].

    Conventions.
    - A JavaScript exception is a value [Throw e] of the [result] monad.
    - A Node [Buffer] is a list of bytes; a JavaScript integer and an ethers
      [BigNumber] are both a [Z], and the places where the libraries refuse a
      number ([BigNumber.from], [toNumber]) are written out.
    - The records are those of the object literals of the handlers; the
      mutable locals of a function are a record threaded through its loops.
    - The collaborators outside the file (the transaction codec of
      core-utils, the signing utilities of ethers, the chain provider) are
      the methods of type classes; every statement holds for all of their
      implementations. The entry store is the list of calls made on it.
    - [console.log] calls are not modelled.

    The file has three parts: the embedding, the statements the
    specification makes about the layout and the entries (written as
    definitions to compare with), and the properties. *)

From Stdlib Require Import Strings.Ascii Strings.Byte.
From stdpp Require Import base numbers list strings option.

Local Open Scope Z_scope.

(** ** Exceptions *)

Inductive exn : Type :=
| InvalidBigNumberString        (* ethers: BigNumber.from("0x") *)
| NumericFault                  (* ethers: overflow in BigNumber.from / toNumber *)
| TypeError                     (* property access on null *)
| RangeError                    (* Buffer read outside the buffer *)
| Error (msg : string)          (* throw new Error(msg) *)
| LibraryError (msg : string).  (* raised inside a collaborator *)

Inductive result (A : Type) : Type :=
| Ok (a : A)
| Throw (e : exn).
Arguments Ok {A} a.
Arguments Throw {A} e.

#[global] Instance result_ret : MRet result := @Ok.
#[global] Instance result_bind : MBind result := λ A B f m,
  match m with
  | Ok a => f a
  | Throw e => Throw e
  end.

(** ** Buffers *)

Definition Buffer : Type := list byte.

Definition byte_val (b : byte) : Z := Z.of_N (Byte.to_N b).

(** An index argument of [Buffer.prototype.slice]: negative indices count
    from the end, and everything is clamped to [0, length]. *)
Definition clamp_index (len i : Z) : Z :=
  if decide (i < 0) then Z.max (len + i) 0 else Z.min i len.

(** [buf.slice(start, end)] *)
Definition slice (buf : Buffer) (start stop : Z) : Buffer :=
  let len := Z.of_nat (length buf) in
  let s := clamp_index len start in
  let e := clamp_index len stop in
  take (Z.to_nat (e - s)) (drop (Z.to_nat s) buf).

(** [buf.readUInt8()] at offset 0 *)
Definition readUInt8 (buf : Buffer) : result Z :=
  match buf with
  | [] => Throw RangeError
  | b :: _ => Ok (byte_val b)
  end.

Definition hex_digit (n : N) : ascii :=
  match n with
  | 0 => "0" | 1 => "1" | 2 => "2" | 3 => "3"
  | 4 => "4" | 5 => "5" | 6 => "6" | 7 => "7"
  | 8 => "8" | 9 => "9" | 10 => "a" | 11 => "b"
  | 12 => "c" | 13 => "d" | 14 => "e" | _ => "f"
  end%N%char.

Definition byte_hex (b : byte) : string :=
  String (hex_digit (Byte.to_N b / 16)%N)
    (String (hex_digit (Byte.to_N b mod 16)%N) EmptyString).

(** [buf.toString('hex')] *)
Fixpoint toString_hex (buf : Buffer) : string :=
  match buf with
  | [] => EmptyString
  | b :: rest => byte_hex b +:+ toString_hex rest
  end.

(** [toHexString(buf)] of core-utils *)
Definition toHexString (buf : Buffer) : string := "0x" +:+ toString_hex buf.

(** ** Numbers *)

(** The big-endian value of a byte string. *)
Definition be_uint (buf : Buffer) : Z :=
  fold_left (λ acc b, acc * 256 + byte_val b) buf 0.

Definition MAX_SAFE : Z := 2 ^ 53 - 1.

Module BigNumber.

(** [BigNumber.from(bytes)]: the bytes are turned into a hex string first,
    and the hex string of no bytes, "0x", is not a number for ethers. *)
Definition from_bytes (buf : Buffer) : result Z :=
  match buf with
  | [] => Throw InvalidBigNumberString
  | _ => Ok (be_uint buf)
  end.

(** [BigNumber.from(n)] for a JavaScript integer [n] *)
Definition from_number (n : Z) : result Z :=
  if decide (n >= MAX_SAFE ∨ n <= - MAX_SAFE) then Throw NumericFault
  else Ok n.

(** [x.toNumber()]: at most 53 bits *)
Definition toNumber (x : Z) : result Z :=
  if decide (Z.abs x < 2 ^ 53) then Ok x else Throw NumericFault.

End BigNumber.

(** ** Data model *)

Module Signature.
Record t : Type := mk { r : string; s : string; v : Z }.
End Signature.

(** Modelled from the spec: the declaration of
    [DecodedSequencerBatchTransaction] is in [types], which is not part of
    the handler's file; the fields are those of section 3 of the
    specification (nonce, gas price, gas limit, target, payload data and the
    signature triple). *)
Module DecodedSequencerBatchTransaction.
Record t : Type := mk {
  sig : Signature.t;
  gasLimit : Z;
  gasPrice : Z;
  nonce : Z;
  target : string;
  data : string;
}.
End DecodedSequencerBatchTransaction.

(** The record handed to [ethers.utils.serializeTransaction]: the decoded
    record without [sig] and with [target] renamed to [to]. *)
Module UnsignedTransaction.
Record t : Type := mk {
  gasLimit : Z;
  gasPrice : Z;
  nonce : Z;
  data : string;
  to : string;
}.
End UnsignedTransaction.

(** What the handler looks at in the result of
    [ethers.utils.parseTransaction]. *)
Module ParsedTransaction.
Record t : Type := mk { from : option string }.
End ParsedTransaction.

Inductive QueueOrigin : Type := sequencer | l1.

#[global] Instance QueueOrigin_eq_dec : EqDecision QueueOrigin.
Proof. solve_decision. Defined.

Module TransactionEntry.
Record t : Type := mk {
  index : Z;
  batchIndex : Z;
  blockNumber : Z;
  timestamp : Z;
  gasLimit : Z;
  target : string;
  origin : option string;
  data : string;
  queueOrigin : QueueOrigin;
  type : option string;
  queueIndex : option Z;
  decoded : option DecodedSequencerBatchTransaction.t;
}.
End TransactionEntry.

Module TransactionBatchEntry.
Record t : Type := mk {
  index : Z;
  root : string;
  size : Z;
  prevTotalElements : Z;
  extraData : string;
  blockNumber : Z;
  timestamp : Z;
  submitter : string;
  l1TransactionHash : string;
}.
End TransactionBatchEntry.

Module SequencerBatchContext.
Record t : Type := mk {
  numSequencedTransactions : Z;
  numSubsequentQueueTransactions : Z;
  timestamp : Z;
  blockNumber : Z;
}.
End SequencerBatchContext.

(** ** Collaborators *)

(** The transaction codec of core-utils: the two type markers and the two
    decoders. A decoder is JavaScript: it can throw, and it can return
    [null]. *)
Class Codec : Type := {
  TxType_EIP155 : Z;
  TxType_EthSign : Z;
  eip155TxData_decode :
    string → result (option DecodedSequencerBatchTransaction.t);
  ethSignTxData_decode :
    string → result (option DecodedSequencerBatchTransaction.t);
}.

(** The signing utilities of ethers. *)
Class Ethers : Type := {
  serializeTransaction : UnsignedTransaction.t → Signature.t → result string;
  keccak256 : string → result string;
  recoverAddress : string → Signature.t → result string;
  parseTransaction : string → result ParsedTransaction.t;
}.

(** ** The soft-fork validator *)

Section Validator.
Context {ethers : Ethers}.

Definition validateBatchTransaction
    (type : option string)
    (decoded : option DecodedSequencerBatchTransaction.t) : result bool :=
  match type with
  | None => Ok false
  | Some ty =>
    match decoded with
    | None => Throw TypeError
    | Some d =>
      let sig := DecodedSequencerBatchTransaction.sig d in
      if decide (Signature.v sig ≠ 1 ∧ Signature.v sig ≠ 0) then Ok false
      else if decide (ty = "EIP155") then
        let reformattedTx :=
          {| UnsignedTransaction.gasLimit :=
               DecodedSequencerBatchTransaction.gasLimit d;
             UnsignedTransaction.gasPrice :=
               DecodedSequencerBatchTransaction.gasPrice d;
             UnsignedTransaction.nonce :=
               DecodedSequencerBatchTransaction.nonce d;
             UnsignedTransaction.data :=
               DecodedSequencerBatchTransaction.data d;
             UnsignedTransaction.to :=
               DecodedSequencerBatchTransaction.target d |} in
        let reformattedSig :=
          {| Signature.r := Signature.r sig;
             Signature.s := Signature.s sig;
             Signature.v := Signature.v sig + (35 + 2 * 10) |} in
        (* [recoveringSig], with [v + 27], is built and never used *)
        rawTx ← serializeTransaction reformattedTx reformattedSig;
        msgHash ← keccak256 rawTx;
        recoveredAddress ← recoverAddress msgHash reformattedSig;
        parsedTx ← parseTransaction rawTx;
        Ok (bool_decide
              (Some recoveredAddress = ParsedTransaction.from parsedTx))
      else Ok false
    end
  end.

End Validator.

(** ** The codec wrapper *)

(** The two local variables of [maybeDecodeSequencerBatchTransaction]. *)
Module Decoding.
Record t : Type := mk {
  decoded : option DecodedSequencerBatchTransaction.t;
  type : option string;
}.
End Decoding.

Section Decoder.
Context {codec : Codec} {ethers : Ethers}.

(** The last statement of the [try] block, run once [type] and [decoded]
    have been assigned: the locals when the block ends, and the exception
    that ended it, if one did. *)
Definition validate_decoded
    (ty : string) (d : option DecodedSequencerBatchTransaction.t)
    : Decoding.t * option exn :=
  match validateBatchTransaction (Some ty) d with
  | Ok true => (Decoding.mk d (Some ty), None)
  | Ok false => (Decoding.mk None (Some ty), None)
  | Throw e => (Decoding.mk d (Some ty), Some e)
  end.

(** The [try] block: the locals when it ends, and the exception the
    [catch] clause receives, if any. *)
Definition maybeDecode_try (transaction : Buffer)
    : Decoding.t * option exn :=
  match readUInt8 (slice transaction 0 1) with
  | Throw e => (Decoding.mk None None, Some e)
  | Ok txType =>
    if decide (txType = TxType_EIP155) then
      match eip155TxData_decode (toString_hex transaction) with
      | Throw e => (Decoding.mk None (Some "EIP155"), Some e)
      | Ok d => validate_decoded "EIP155" d
      end
    else if decide (txType = TxType_EthSign) then
      match ethSignTxData_decode (toString_hex transaction) with
      | Throw e => (Decoding.mk None (Some "ETH_SIGN"), Some e)
      | Ok d => validate_decoded "ETH_SIGN" d
      end
    else
      (Decoding.mk None None,
       Some (Error "Unknown sequencer transaction type."))
  end.

(** The [catch] clause does nothing: the locals are returned as they
    are. *)
Definition maybeDecodeSequencerBatchTransaction (transaction : Buffer)
    : Decoding.t :=
  fst (maybeDecode_try transaction).

End Decoder.

(** ** Hex strings *)

Definition hex_value (c : ascii) : option N :=
  let n := N_of_ascii c in
  if decide (48 ≤ n ≤ 57)%N then Some (n - 48)%N
  else if decide (97 ≤ n ≤ 102)%N then Some (n - 87)%N
  else if decide (65 ≤ n ≤ 70)%N then Some (n - 55)%N
  else None.

(** [Buffer.from(s, 'hex')]: pairs of hex digits, up to the first pair that
    is not one. *)
Fixpoint hex_decode (s : string) : Buffer :=
  match s with
  | String a (String b rest) =>
    match hex_value a, hex_value b with
    | Some x, Some y => byte_of_ascii (ascii_of_N (16 * x + y)) :: hex_decode rest
    | _, _ => []
    end
  | _ => []
  end.

(** [fromHexString(inp)] of core-utils, for a string argument. *)
Definition fromHexString (inp : string) : Buffer :=
  match inp with
  | String "0" (String "x" digits) => hex_decode digits
  | _ => byte_of_ascii <$> String.list_ascii_of_string inp
  end.

(** ** Events and handler data *)

Module Event.
Record t (A : Type) : Type := mk {
  address : string;
  transactionHash : string;
  logIndex : Z;
  args : A;
}.
Arguments mk {A}.
Arguments address {A}.
Arguments transactionHash {A}.
Arguments logIndex {A}.
Arguments args {A}.
End Event.

(** The argument of a SequencerBatchAppended event that the handler uses. *)
Module EventArgsSequencerBatchAppended.
Record t : Type := mk { _startingQueueIndex : Z }.
End EventArgsSequencerBatchAppended.

(** The arguments of the companion TransactionBatchAppended event. *)
Module EventArgsTransactionBatchAppended.
Record t : Type := mk {
  _batchIndex : Z;
  _batchRoot : string;
  _batchSize : Z;
  _prevTotalElements : Z;
  _extraData : string;
}.
End EventArgsTransactionBatchAppended.

Module L1Transaction.
Record t : Type := mk { from : string; hash : string; data : string }.
End L1Transaction.

Module Block.
Record t : Type := mk { number : Z; timestamp : Z }.
End Block.

Module ExtraData.
Record t : Type := mk {
  timestamp : Z;
  blockNumber : Z;
  submitter : string;
  l1TransactionData : string;
  l1TransactionHash : string;
  gasLimit : Z;
  prevTotalElements : Z;
  batchIndex : Z;
  batchSize : Z;
  batchRoot : string;
  batchExtraData : string;
}.
End ExtraData.

Module ParsedEvent.
Record t : Type := mk {
  transactionBatchEntry : TransactionBatchEntry.t;
  transactionEntries : list TransactionEntry.t;
}.
End ParsedEvent.

Abbreviation BatchAppendedEvent := (Event.t EventArgsSequencerBatchAppended.t).
Abbreviation BatchSubmittedEvent := (Event.t EventArgsTransactionBatchAppended.t).

(** The chain provider, as the handler reaches it: the two getters of the
    event, and the query for the TransactionBatchAppended events of a
    contract between two block heights. *)
Class ChainProvider : Type := {
  getTransaction : BatchAppendedEvent → result L1Transaction.t;
  getBlock : BatchAppendedEvent → result Block.t;
  queryFilter_TransactionBatchAppended :
    string → Z → Z → result (list BatchSubmittedEvent);
}.

(** The calls that reach the entry store. *)
Inductive DbCall : Type :=
| putTransactionBatchEntries (entries : list TransactionBatchEntry.t)
| putTransactionEntries (entries : list TransactionEntry.t)
| putTransactionIndexByQueueIndex (queueIndex : option Z) (index : Z).

(** ** Loops *)

(** [for (let i = start; ...; i++) body], run [n] times over the state [st];
    an exception in the body ends the loop. *)
Fixpoint for_loop {S : Type} (n : nat) (i : Z)
    (body : Z → S → result S) (st : S) : result S :=
  match n with
  | O => Ok st
  | S n' => st' ← body i st; for_loop n' (i + 1) body st'
  end.

(** [for (let i = 0; i < bound; i++) body] *)
Definition for_upto {S : Type} (bound : Z)
    (body : Z → S → result S) (st : S) : result S :=
  for_loop (Z.to_nat bound) 0 body st.

(** The variables of [parseEvent] that its loops update. *)
Module Locals.
Record t : Type := mk {
  transactionEntries : list TransactionEntry.t;
  transactionIndex : Z;
  enqueuedCount : Z;
  nextTxPointer : Z;
}.
End Locals.

(** ** Calldata helpers *)

Definition parseSequencerBatchContext (calldata : Buffer) (offset : Z)
    : result SequencerBatchContext.t :=
  numSequencedTransactions ←
    BigNumber.from_bytes (slice calldata offset (offset + 3))
      ≫= BigNumber.toNumber;
  numSubsequentQueueTransactions ←
    BigNumber.from_bytes (slice calldata (offset + 3) (offset + 6))
      ≫= BigNumber.toNumber;
  timestamp ←
    BigNumber.from_bytes (slice calldata (offset + 6) (offset + 11))
      ≫= BigNumber.toNumber;
  blockNumber ←
    BigNumber.from_bytes (slice calldata (offset + 11) (offset + 16))
      ≫= BigNumber.toNumber;
  Ok {| SequencerBatchContext.numSequencedTransactions :=
          numSequencedTransactions;
        SequencerBatchContext.numSubsequentQueueTransactions :=
          numSubsequentQueueTransactions;
        SequencerBatchContext.timestamp := timestamp;
        SequencerBatchContext.blockNumber := blockNumber |}.

Definition parseSequencerBatchTransaction (calldata : Buffer) (offset : Z)
    : result Buffer :=
  transactionLength ←
    BigNumber.from_bytes (slice calldata offset (offset + 3))
      ≫= BigNumber.toNumber;
  Ok (slice calldata (offset + 3) (offset + 3 + transactionLength)).

(** ** The handlers *)

Section Handlers.
Context {codec : Codec} {ethers : Ethers}.

(** The body of the loop over a context's sequenced transactions. *)
Definition sequenced_body (extraData : ExtraData.t) (calldata : Buffer)
    (context : SequencerBatchContext.t) (j : Z) (st : Locals.t)
    : result Locals.t :=
  sequencerTransaction ←
    parseSequencerBatchTransaction calldata (Locals.nextTxPointer st);
  let dt := maybeDecodeSequencerBatchTransaction sequencerTransaction in
  index ←
    (k ← BigNumber.from_number (Locals.transactionIndex st);
     BigNumber.toNumber (ExtraData.prevTotalElements extraData + k));
  batchIndex ← BigNumber.toNumber (ExtraData.batchIndex extraData);
  blockNumber ←
    BigNumber.from_number (SequencerBatchContext.blockNumber context)
      ≫= BigNumber.toNumber;
  timestamp ←
    BigNumber.from_number (SequencerBatchContext.timestamp context)
      ≫= BigNumber.toNumber;
  gasLimit ←
    BigNumber.from_number (ExtraData.gasLimit extraData)
      ≫= BigNumber.toNumber;
  Ok {| Locals.transactionEntries :=
          Locals.transactionEntries st ++
          [ {| TransactionEntry.index := index;
               TransactionEntry.batchIndex := batchIndex;
               TransactionEntry.blockNumber := blockNumber;
               TransactionEntry.timestamp := timestamp;
               TransactionEntry.gasLimit := gasLimit;
               TransactionEntry.target :=
                 "0x4200000000000000000000000000000000000005";
               TransactionEntry.origin := None;
               TransactionEntry.data := toHexString sequencerTransaction;
               TransactionEntry.queueOrigin := sequencer;
               TransactionEntry.type := Decoding.type dt;
               TransactionEntry.queueIndex := None;
               TransactionEntry.decoded := Decoding.decoded dt |} ];
        Locals.transactionIndex := Locals.transactionIndex st + 1;
        Locals.enqueuedCount := Locals.enqueuedCount st;
        Locals.nextTxPointer :=
          Locals.nextTxPointer st +
          (3 + Z.of_nat (length sequencerTransaction)) |}.

(** The body of the loop over a context's queue transactions. *)
Definition queued_body (event : BatchAppendedEvent)
    (extraData : ExtraData.t) (j : Z) (st : Locals.t) : result Locals.t :=
  queueIndex ←
    (k ← BigNumber.from_number (Locals.enqueuedCount st);
     Ok (EventArgsSequencerBatchAppended._startingQueueIndex
           (Event.args event) + k));
  index ←
    (k ← BigNumber.from_number (Locals.transactionIndex st);
     BigNumber.toNumber (ExtraData.prevTotalElements extraData + k));
  batchIndex ← BigNumber.toNumber (ExtraData.batchIndex extraData);
  blockNumber ← BigNumber.from_number 0 ≫= BigNumber.toNumber;
  timestamp ← BigNumber.from_number 0 ≫= BigNumber.toNumber;
  gasLimit ← BigNumber.from_number 0 ≫= BigNumber.toNumber;
  queueIndexNumber ← BigNumber.toNumber queueIndex;
  Ok {| Locals.transactionEntries :=
          Locals.transactionEntries st ++
          [ {| TransactionEntry.index := index;
               TransactionEntry.batchIndex := batchIndex;
               TransactionEntry.blockNumber := blockNumber;
               TransactionEntry.timestamp := timestamp;
               TransactionEntry.gasLimit := gasLimit;
               TransactionEntry.target :=
                 "0x0000000000000000000000000000000000000000";
               TransactionEntry.origin :=
                 Some "0x0000000000000000000000000000000000000000";
               TransactionEntry.data := "0x";
               TransactionEntry.queueOrigin := l1;
               TransactionEntry.type := Some "EIP155";
               TransactionEntry.queueIndex := Some queueIndexNumber;
               TransactionEntry.decoded := None |} ];
        Locals.transactionIndex := Locals.transactionIndex st + 1;
        Locals.enqueuedCount := Locals.enqueuedCount st + 1;
        Locals.nextTxPointer := Locals.nextTxPointer st |}.

(** The body of the loop over the contexts. *)
Definition context_body (event : BatchAppendedEvent)
    (extraData : ExtraData.t) (calldata : Buffer) (i : Z) (st : Locals.t)
    : result Locals.t :=
  let contextPointer := 15 + 16 * i in
  context ← parseSequencerBatchContext calldata contextPointer;
  st ← for_upto (SequencerBatchContext.numSequencedTransactions context)
         (sequenced_body extraData calldata context) st;
  for_upto (SequencerBatchContext.numSubsequentQueueTransactions context)
    (queued_body event extraData) st.

Definition parseEvent (event : BatchAppendedEvent)
    (extraData : ExtraData.t) : result ParsedEvent.t :=
  let calldata := fromHexString (ExtraData.l1TransactionData extraData) in
  numContexts ←
    BigNumber.from_bytes (slice calldata 12 15) ≫= BigNumber.toNumber;
  st ← for_upto numContexts (context_body event extraData calldata)
         {| Locals.transactionEntries := [];
            Locals.transactionIndex := 0;
            Locals.enqueuedCount := 0;
            Locals.nextTxPointer := 15 + 16 * numContexts |};
  index ← BigNumber.toNumber (ExtraData.batchIndex extraData);
  size ← BigNumber.toNumber (ExtraData.batchSize extraData);
  prevTotalElements ←
    BigNumber.toNumber (ExtraData.prevTotalElements extraData);
  blockNumber ←
    BigNumber.from_number (ExtraData.blockNumber extraData)
      ≫= BigNumber.toNumber;
  timestamp ←
    BigNumber.from_number (ExtraData.timestamp extraData)
      ≫= BigNumber.toNumber;
  Ok {| ParsedEvent.transactionBatchEntry :=
          {| TransactionBatchEntry.index := index;
             TransactionBatchEntry.root := ExtraData.batchRoot extraData;
             TransactionBatchEntry.size := size;
             TransactionBatchEntry.prevTotalElements := prevTotalElements;
             TransactionBatchEntry.extraData :=
               ExtraData.batchExtraData extraData;
             TransactionBatchEntry.blockNumber := blockNumber;
             TransactionBatchEntry.timestamp := timestamp;
             TransactionBatchEntry.submitter :=
               ExtraData.submitter extraData;
             TransactionBatchEntry.l1TransactionHash :=
               ExtraData.l1TransactionHash extraData |};
        ParsedEvent.transactionEntries := Locals.transactionEntries st |}.

End Handlers.

(** The reverse lookups of [storeEvent]: one call for each entry of queue
    origin [l1], in the order of the entries. *)
Fixpoint store_queue_indices (entries : list TransactionEntry.t)
    : list DbCall :=
  match entries with
  | [] => []
  | transactionEntry :: rest =>
    if decide (TransactionEntry.queueOrigin transactionEntry = l1) then
      putTransactionIndexByQueueIndex
        (TransactionEntry.queueIndex transactionEntry)
        (TransactionEntry.index transactionEntry)
      :: store_queue_indices rest
    else store_queue_indices rest
  end.

(** [storeEvent], as the calls it makes on the store, in order. *)
Definition storeEvent (entry : ParsedEvent.t) : list DbCall :=
  putTransactionBatchEntries [ParsedEvent.transactionBatchEntry entry]
  :: putTransactionEntries (ParsedEvent.transactionEntries entry)
  :: store_queue_indices (ParsedEvent.transactionEntries entry).

Definition missing_companion_message : string :=
  "Well, this really shouldn't happen. A SequencerBatchAppended event doesn't have a corresponding TransactionBatchAppended event.".

Section Resolver.
Context {provider : ChainProvider}.

(** The predicate given to [find]. *)
Definition is_companion (event : BatchAppendedEvent)
    (foundEvent : BatchSubmittedEvent) : bool :=
  bool_decide (Event.transactionHash foundEvent = Event.transactionHash event)
  && bool_decide (Event.logIndex foundEvent = Event.logIndex event - 1).

Definition getExtraData (event : BatchAppendedEvent) : result ExtraData.t :=
  l1Transaction ← getTransaction event;
  eventBlock ← getBlock event;
  found ← queryFilter_TransactionBatchAppended (Event.address event)
            (Block.number eventBlock) (Block.number eventBlock);
  match List.find (is_companion event) found with
  | None => Throw (Error missing_companion_message)
  | Some batchSubmissionEvent =>
    let args := Event.args batchSubmissionEvent in
    Ok {| ExtraData.timestamp := Block.timestamp eventBlock;
          ExtraData.blockNumber := Block.number eventBlock;
          ExtraData.submitter := L1Transaction.from l1Transaction;
          ExtraData.l1TransactionHash := L1Transaction.hash l1Transaction;
          ExtraData.l1TransactionData := L1Transaction.data l1Transaction;
          ExtraData.gasLimit := 8000000;
          ExtraData.prevTotalElements :=
            EventArgsTransactionBatchAppended._prevTotalElements args;
          ExtraData.batchIndex :=
            EventArgsTransactionBatchAppended._batchIndex args;
          ExtraData.batchSize :=
            EventArgsTransactionBatchAppended._batchSize args;
          ExtraData.batchRoot :=
            EventArgsTransactionBatchAppended._batchRoot args;
          ExtraData.batchExtraData :=
            EventArgsTransactionBatchAppended._extraData args |}
  end.

End Resolver.

Section Pipeline.
Context {codec : Codec} {ethers : Ethers} {provider : ChainProvider}.

(** Modelled from the spec: the dispatcher that runs the handlers of an
    event is not part of the handler's file. Following the control flow of
    section 2 of the specification, an event is enriched by [getExtraData],
    decoded by [parseEvent] and the result handed to [storeEvent]; a
    failure of a step ends the processing of the event. The result is the
    list of store calls made and the exception that ended the processing,
    if any. *)
Definition handleEvent (event : BatchAppendedEvent)
    : list DbCall * option exn :=
  match getExtraData event with
  | Throw e => ([], Some e)
  | Ok extraData =>
    match parseEvent event extraData with
    | Throw e => ([], Some e)
    | Ok entry => (storeEvent entry, None)
    end
  end.

End Pipeline.

(** ** The entries of a batch, written as a list *)

(** A context together with the raw slices of its sequenced transactions. *)
Abbreviation Batch := (list (SequencerBatchContext.t * list Buffer)).

Section Entries.
Context {codec : Codec} {ethers : Ethers}.

(** The entry of a sequenced transaction: local offset [k], raw slice
    [tx], context [c]. *)
Definition sequencer_entry (extraData : ExtraData.t)
    (c : SequencerBatchContext.t) (k : Z) (tx : Buffer)
    : TransactionEntry.t :=
  {| TransactionEntry.index := ExtraData.prevTotalElements extraData + k;
     TransactionEntry.batchIndex := ExtraData.batchIndex extraData;
     TransactionEntry.blockNumber := SequencerBatchContext.blockNumber c;
     TransactionEntry.timestamp := SequencerBatchContext.timestamp c;
     TransactionEntry.gasLimit := ExtraData.gasLimit extraData;
     TransactionEntry.target :=
       "0x4200000000000000000000000000000000000005";
     TransactionEntry.origin := None;
     TransactionEntry.data := toHexString tx;
     TransactionEntry.queueOrigin := sequencer;
     TransactionEntry.type :=
       Decoding.type (maybeDecodeSequencerBatchTransaction tx);
     TransactionEntry.queueIndex := None;
     TransactionEntry.decoded :=
       Decoding.decoded (maybeDecodeSequencerBatchTransaction tx) |}.

(** The provisional entry of a queue transaction: global index [index],
    queue index [queueIndex]. *)
Definition provisional_entry (index batchIndex queueIndex : Z)
    : TransactionEntry.t :=
  {| TransactionEntry.index := index;
     TransactionEntry.batchIndex := batchIndex;
     TransactionEntry.blockNumber := 0;
     TransactionEntry.timestamp := 0;
     TransactionEntry.gasLimit := 0;
     TransactionEntry.target :=
       "0x0000000000000000000000000000000000000000";
     TransactionEntry.origin :=
       Some "0x0000000000000000000000000000000000000000";
     TransactionEntry.data := "0x";
     TransactionEntry.queueOrigin := l1;
     TransactionEntry.type := Some "EIP155";
     TransactionEntry.queueIndex := Some queueIndex;
     TransactionEntry.decoded := None |}.

Definition queue_entry (event : BatchAppendedEvent)
    (extraData : ExtraData.t) (k q : Z) : TransactionEntry.t :=
  provisional_entry
    (ExtraData.prevTotalElements extraData + k)
    (ExtraData.batchIndex extraData)
    (EventArgsSequencerBatchAppended._startingQueueIndex (Event.args event)
     + q).

Fixpoint sequencer_entries (extraData : ExtraData.t)
    (c : SequencerBatchContext.t) (k : Z) (txs : list Buffer)
    : list TransactionEntry.t :=
  match txs with
  | [] => []
  | tx :: rest =>
    sequencer_entry extraData c k tx
    :: sequencer_entries extraData c (k + 1) rest
  end.

Fixpoint queue_entries (event : BatchAppendedEvent)
    (extraData : ExtraData.t) (k q : Z) (n : nat)
    : list TransactionEntry.t :=
  match n with
  | O => []
  | S n' =>
    queue_entry event extraData k q
    :: queue_entries event extraData (k + 1) (q + 1) n'
  end.

(** The entries of one context, at local offset [k] and with [q] queue
    entries before them. *)
Definition context_entries (event : BatchAppendedEvent)
    (extraData : ExtraData.t) (k q : Z)
    (b : SequencerBatchContext.t * list Buffer)
    : list TransactionEntry.t :=
  sequencer_entries extraData b.1 k b.2 ++
  queue_entries event extraData (k + Z.of_nat (length b.2)) q
    (Z.to_nat (SequencerBatchContext.numSubsequentQueueTransactions b.1)).

Fixpoint batch_entries (event : BatchAppendedEvent)
    (extraData : ExtraData.t) (k q : Z) (batch : Batch)
    : list TransactionEntry.t :=
  match batch with
  | [] => []
  | b :: rest =>
    context_entries event extraData k q b ++
    batch_entries event extraData
      (k + Z.of_nat (length b.2)
         + SequencerBatchContext.numSubsequentQueueTransactions b.1)
      (q + SequencerBatchContext.numSubsequentQueueTransactions b.1)
      rest
  end.

End Entries.

(** The number of entries the contexts of a batch announce. *)
Definition context_size (c : SequencerBatchContext.t) : Z :=
  SequencerBatchContext.numSequencedTransactions c
  + SequencerBatchContext.numSubsequentQueueTransactions c.

Definition total_elements (contexts : list SequencerBatchContext.t) : Z :=
  foldr (λ c acc, context_size c + acc) 0 contexts.

(** The contexts of a calldata: as many as the 3 bytes from offset 12 say,
    the one of rank [i] read at [15 + 16 * i]. *)
Definition contexts_at (calldata : Buffer)
    (contexts : list SequencerBatchContext.t) : Prop :=
  BigNumber.from_bytes (slice calldata 12 15)
    = Ok (Z.of_nat (length contexts))
  ∧ ∀ (i : nat) c, contexts !! i = Some c →
      parseSequencerBatchContext calldata (15 + 16 * Z.of_nat i) = Ok c.

(** The entries of queue origin [sequencer], in order. *)
Definition sequencer_origin_entries (entries : list TransactionEntry.t)
    : list TransactionEntry.t :=
  filter (λ e, TransactionEntry.queueOrigin e = sequencer) entries.

(** The same contexts, read one after the other. *)
Fixpoint read_contexts_from (calldata : Buffer) (n : nat) (i : Z)
    : result (list SequencerBatchContext.t) :=
  match n with
  | O => Ok []
  | S n' =>
    c ← parseSequencerBatchContext calldata (15 + 16 * i);
    rest ← read_contexts_from calldata n' (i + 1);
    Ok (c :: rest)
  end.

Definition read_contexts (calldata : Buffer)
    : result (list SequencerBatchContext.t) :=
  numContexts ← BigNumber.from_bytes (slice calldata 12 15);
  read_contexts_from calldata (Z.to_nat numContexts) 0.

(** A calldata is valid for the metadata of its batch when its contexts can
    be read and announce, together, as many elements as the companion event
    says the batch has. The chain contract derives both from the same count;
    [parseEvent] does not compare them. *)
Definition valid_calldata (extraData : ExtraData.t) : Prop :=
  ∃ contexts,
    read_contexts (fromHexString (ExtraData.l1TransactionData extraData))
      = Ok contexts
    ∧ total_elements contexts = ExtraData.batchSize extraData.

(** A context has as many slices as it announces sequenced transactions. *)
Definition slices_match (b : SequencerBatchContext.t * list Buffer) : Prop :=
  Z.of_nat (length b.2) = SequencerBatchContext.numSequencedTransactions b.1
  ∧ 0 ≤ SequencerBatchContext.numSubsequentQueueTransactions b.1.

(** The entries of one context: the sequenced ones, which carry the block
    number and timestamp of the context, then the queued ones. *)
Definition context_block (c : SequencerBatchContext.t)
    (b : list TransactionEntry.t * list TransactionEntry.t) : Prop :=
  Z.of_nat (length b.1) = SequencerBatchContext.numSequencedTransactions c
  ∧ Forall (λ e, TransactionEntry.queueOrigin e = sequencer
                 ∧ TransactionEntry.blockNumber e
                   = SequencerBatchContext.blockNumber c
                 ∧ TransactionEntry.timestamp e
                   = SequencerBatchContext.timestamp c) b.1
  ∧ Z.of_nat (length b.2)
    = SequencerBatchContext.numSubsequentQueueTransactions c
  ∧ Forall (λ e, TransactionEntry.queueOrigin e = l1) b.2.

(** The entries of queue origin [l1], in order. *)
Definition queue_origin_entries (entries : list TransactionEntry.t)
    : list TransactionEntry.t :=
  filter (λ e, TransactionEntry.queueOrigin e = l1) entries.

(** ** The calldata layout of section 4.2 of the specification, as an
    encoder *)

Definition byte_of_Z (z : Z) : byte := default x00 (Byte.of_N (Z.to_N z)).

(** The [k] bytes of [n], most significant first. *)
Fixpoint be_bytes (k : nat) (n : Z) : Buffer :=
  match k with
  | O => []
  | S k' => be_bytes k' (n / 256) ++ [byte_of_Z (n mod 256)]
  end.

Definition encode_context (c : SequencerBatchContext.t) : Buffer :=
  be_bytes 3 (SequencerBatchContext.numSequencedTransactions c)
  ++ be_bytes 3 (SequencerBatchContext.numSubsequentQueueTransactions c)
  ++ be_bytes 5 (SequencerBatchContext.timestamp c)
  ++ be_bytes 5 (SequencerBatchContext.blockNumber c).

Definition encode_transaction (tx : Buffer) : Buffer :=
  be_bytes 3 (Z.of_nat (length tx)) ++ tx.

Definition encode_transactions (txs : list Buffer) : Buffer :=
  concat (encode_transaction <$> txs).

Definition encode_calldata (header : Buffer) (batch : Batch)
    (trailer : Buffer) : Buffer :=
  header
  ++ be_bytes 3 (Z.of_nat (length batch))
  ++ concat (encode_context <$> batch.*1)
  ++ encode_transactions (concat batch.*2)
  ++ trailer.

(** What the layout asks of a context and its slices: every number fits its
    field. *)
Definition fits_layout (b : SequencerBatchContext.t * list Buffer) : Prop :=
  SequencerBatchContext.numSequencedTransactions b.1 = Z.of_nat (length b.2)
  ∧ Z.of_nat (length b.2) < 2 ^ 24
  ∧ 0 ≤ SequencerBatchContext.numSubsequentQueueTransactions b.1 < 2 ^ 24
  ∧ 0 ≤ SequencerBatchContext.timestamp b.1 < 2 ^ 40
  ∧ 0 ≤ SequencerBatchContext.blockNumber b.1 < 2 ^ 40
  ∧ Forall (λ tx : Buffer, Z.of_nat (length tx) < 2 ^ 24) b.2.

Definition total_queued (contexts : list SequencerBatchContext.t) : Z :=
  foldr (λ c acc, SequencerBatchContext.numSubsequentQueueTransactions c + acc)
    0 contexts.

(** The numbers of the event and of its metadata for which no conversion of
    [parseEvent] overflows: indices and queue indices stay below [2 ^ 53]. *)
Definition safe_numbers (event : BatchAppendedEvent)
    (extraData : ExtraData.t) (contexts : list SequencerBatchContext.t)
    : Prop :=
  0 ≤ ExtraData.prevTotalElements extraData
  ∧ ExtraData.prevTotalElements extraData + total_elements contexts < 2 ^ 53
  ∧ 0 ≤ EventArgsSequencerBatchAppended._startingQueueIndex
          (Event.args event)
  ∧ EventArgsSequencerBatchAppended._startingQueueIndex (Event.args event)
    + total_queued contexts < 2 ^ 53
  ∧ Z.abs (ExtraData.batchIndex extraData) < 2 ^ 53
  ∧ Z.abs (ExtraData.batchSize extraData) < 2 ^ 53
  ∧ Z.abs (ExtraData.gasLimit extraData) < MAX_SAFE
  ∧ Z.abs (ExtraData.blockNumber extraData) < MAX_SAFE
  ∧ Z.abs (ExtraData.timestamp extraData) < MAX_SAFE.

(** ** The decision rule of section 4.4 of the specification, step 4 *)

(** The chain id of the deployment. *)
Definition chainId : Z := 10.

(** Step 4a: the fields of the transaction, [target] under the name [to],
    without the signature. *)
Definition canonical_transaction (d : DecodedSequencerBatchTransaction.t)
    : UnsignedTransaction.t :=
  UnsignedTransaction.mk
    (DecodedSequencerBatchTransaction.gasLimit d)
    (DecodedSequencerBatchTransaction.gasPrice d)
    (DecodedSequencerBatchTransaction.nonce d)
    (DecodedSequencerBatchTransaction.data d)
    (DecodedSequencerBatchTransaction.target d).

(** Step 4b: the signature with [v] increased by [35 + 2 * chainId]. *)
Definition adjusted_signature (d : DecodedSequencerBatchTransaction.t)
    : Signature.t :=
  let sig := DecodedSequencerBatchTransaction.sig d in
  Signature.mk (Signature.r sig) (Signature.s sig)
    (Signature.v sig + (35 + 2 * chainId)).

(** Steps 4b to 4d succeed and yield the addresses [recovered] (4c) and
    [sender] (4d). *)
Definition round_trip {ethers : Ethers} (d : DecodedSequencerBatchTransaction.t)
    (recovered : string) (sender : option string) : Prop :=
  ∃ rawTx msgHash parsedTx,
    serializeTransaction (canonical_transaction d) (adjusted_signature d)
      = Ok rawTx
    ∧ keccak256 rawTx = Ok msgHash
    ∧ recoverAddress msgHash (adjusted_signature d) = Ok recovered
    ∧ parseTransaction rawTx = Ok parsedTx
    ∧ ParsedTransaction.from parsedTx = sender.

(** ** Sample collaborators and inputs for the examples *)

(** A codec with a fixed-width layout (type marker, r, s, v, gas limit, gas
    price, nonce, target, then the payload) that refuses a slice shorter
    than the fixed part. It stands in for the codec of core-utils in the
    examples; no general statement depends on it. *)
Definition sample_decode (hex : string)
    : result (option DecodedSequencerBatchTransaction.t) :=
  if decide (String.length hex < 190)%nat
  then Throw (LibraryError "transaction data too short")
  else
    let field (start len : nat) := be_uint (hex_decode (String.substring start len hex)) in
    Ok (Some
      {| DecodedSequencerBatchTransaction.sig :=
           {| Signature.r := "0x" +:+ String.substring 2 64 hex;
              Signature.s := "0x" +:+ String.substring 66 64 hex;
              Signature.v := field 130%nat 2%nat |};
         DecodedSequencerBatchTransaction.gasLimit := field 132%nat 6%nat;
         DecodedSequencerBatchTransaction.gasPrice := field 138%nat 6%nat;
         DecodedSequencerBatchTransaction.nonce := field 144%nat 6%nat;
         DecodedSequencerBatchTransaction.target :=
           "0x" +:+ String.substring 150 40 hex;
         DecodedSequencerBatchTransaction.data :=
           "0x" +:+ String.substring 190 (String.length hex - 190) hex |}).

Definition sample_codec : Codec :=
  {| TxType_EIP155 := 0;
     TxType_EthSign := 1;
     eip155TxData_decode := sample_decode;
     ethSignTxData_decode := sample_decode |}.

(** A codec whose EIP155 decoder returns [null]. *)
Definition null_codec : Codec :=
  {| TxType_EIP155 := 0;
     TxType_EthSign := 1;
     eip155TxData_decode := λ _, Ok None;
     ethSignTxData_decode := sample_decode |}.

(** Toy signing utilities: the serialization is the [s] string of the
    signature, the recovered address its [r] string, and the parser reads
    the serialization back as the sender. A transaction is then
    self-consistent exactly when [r] and [s] agree. *)
Definition sample_ethers : Ethers :=
  {| serializeTransaction := λ _ sig, Ok (Signature.s sig);
     keccak256 := λ raw, Ok raw;
     recoverAddress := λ _ sig, Ok (Signature.r sig);
     parseTransaction := λ raw, Ok (ParsedTransaction.mk (Some raw)) |}.

Definition sample_decoded (r s : string) (v : Z)
    : DecodedSequencerBatchTransaction.t :=
  {| DecodedSequencerBatchTransaction.sig := Signature.mk r s v;
     DecodedSequencerBatchTransaction.gasLimit := 21000;
     DecodedSequencerBatchTransaction.gasPrice := 0;
     DecodedSequencerBatchTransaction.nonce := 7;
     DecodedSequencerBatchTransaction.target :=
       "0x4200000000000000000000000000000000000006";
     DecodedSequencerBatchTransaction.data := "0x" |}.

Definition sample_event : BatchAppendedEvent :=
  {| Event.address := "0xctc";
     Event.transactionHash := "0xabc";
     Event.logIndex := 4;
     Event.args := EventArgsSequencerBatchAppended.mk 3 |}.

Definition sample_extraData (l1TransactionData : string) (batchSize : Z)
    : ExtraData.t :=
  {| ExtraData.timestamp := 1600000000;
     ExtraData.blockNumber := 11000000;
     ExtraData.submitter := "0xsequencer";
     ExtraData.l1TransactionData := l1TransactionData;
     ExtraData.l1TransactionHash := "0xabc";
     ExtraData.gasLimit := 8000000;
     ExtraData.prevTotalElements := 10;
     ExtraData.batchIndex := 2;
     ExtraData.batchSize := batchSize;
     ExtraData.batchRoot := "0xroot";
     ExtraData.batchExtraData := "0x" |}.

(** One context [{2 sequenced, 1 queued, timestamp 100, block 5}] and the
    two slices [07 aa] and [01]. *)
Definition sample_calldata : string :=
  "0x" +:+ "000000000000000000000000" +:+ "000001"
  +:+ "000002" +:+ "000001" +:+ "0000000064" +:+ "0000000005"
  +:+ "000002" +:+ "07aa" +:+ "000001" +:+ "01".

(** One context with one sequenced transaction whose declared length is 5,
    and 2 bytes after the length. *)
Definition short_calldata : string :=
  "0x" +:+ "000000000000000000000000" +:+ "000001"
  +:+ "000001" +:+ "000000" +:+ "0000000064" +:+ "0000000005"
  +:+ "000005" +:+ "07aa".

Definition sample_context : SequencerBatchContext.t :=
  {| SequencerBatchContext.numSequencedTransactions := 2;
     SequencerBatchContext.numSubsequentQueueTransactions := 1;
     SequencerBatchContext.timestamp := 100;
     SequencerBatchContext.blockNumber := 5 |}.

Definition sample_batch : Batch := [(sample_context, [[x07; xaa]; [x01]])].

Definition sample_companion (transactionHash : string) (logIndex : Z)
    : BatchSubmittedEvent :=
  {| Event.address := "0xctc";
     Event.transactionHash := transactionHash;
     Event.logIndex := logIndex;
     Event.args :=
       {| EventArgsTransactionBatchAppended._batchIndex := 2;
          EventArgsTransactionBatchAppended._batchRoot := "0xroot";
          EventArgsTransactionBatchAppended._batchSize := 3;
          EventArgsTransactionBatchAppended._prevTotalElements := 10;
          EventArgsTransactionBatchAppended._extraData := "0x" |} |}.

(** A chain whose block 11000000 holds the given TransactionBatchAppended
    events, and no other block holds any. *)
Definition sample_chain (found : list BatchSubmittedEvent) : ChainProvider :=
  {| getTransaction := λ _,
       Ok (L1Transaction.mk "0xsequencer" "0xabc" sample_calldata);
     getBlock := λ _, Ok (Block.mk 11000000 1600000000);
     queryFilter_TransactionBatchAppended := λ _ fromBlock toBlock,
       if decide (fromBlock = 11000000 ∧ toBlock = 11000000)
       then Ok found else Ok [] |}.

(** What [parseEvent] returns on the sample calldata. *)
Definition sample_parsed : ParsedEvent.t :=
  Eval vm_compute in
    match @parseEvent sample_codec sample_ethers sample_event
            (sample_extraData sample_calldata 3) with
    | Ok r => r
    | Throw _ =>
      ParsedEvent.mk (TransactionBatchEntry.mk 0 "" 0 0 "" 0 0 "" "") []
    end.

(** The sequenced transactions the contexts of a batch announce. *)
Definition total_sequenced (contexts : list SequencerBatchContext.t) : Z :=
  foldr (λ c acc, SequencerBatchContext.numSequencedTransactions c + acc)
    0 contexts.

(** The metadata [extraData] with another settlement payload. *)
Definition with_l1TransactionData (extraData : ExtraData.t)
    (l1TransactionData : string) : ExtraData.t :=
  {| ExtraData.timestamp := ExtraData.timestamp extraData;
     ExtraData.blockNumber := ExtraData.blockNumber extraData;
     ExtraData.submitter := ExtraData.submitter extraData;
     ExtraData.l1TransactionData := l1TransactionData;
     ExtraData.l1TransactionHash := ExtraData.l1TransactionHash extraData;
     ExtraData.gasLimit := ExtraData.gasLimit extraData;
     ExtraData.prevTotalElements := ExtraData.prevTotalElements extraData;
     ExtraData.batchIndex := ExtraData.batchIndex extraData;
     ExtraData.batchSize := ExtraData.batchSize extraData;
     ExtraData.batchRoot := ExtraData.batchRoot extraData;
     ExtraData.batchExtraData := ExtraData.batchExtraData extraData |}.

(** A codec whose decoders return the same record for every slice. *)
Definition constant_codec (d : DecodedSequencerBatchTransaction.t) : Codec :=
  {| TxType_EIP155 := 0;
     TxType_EthSign := 1;
     eip155TxData_decode := λ _, Ok (Some d);
     ethSignTxData_decode := λ _, Ok (Some d) |}.

(** Signing utilities whose serializer refuses every transaction. *)
Definition refusing_ethers : Ethers :=
  {| serializeTransaction := λ _ _, Throw (LibraryError "invalid object key");
     keccak256 := λ raw, Ok raw;
     recoverAddress := λ _ sig, Ok (Signature.r sig);
     parseTransaction := λ raw, Ok (ParsedTransaction.mk (Some raw)) |}.

(** A calldata with no context: 12 header bytes, then a zero count. *)
Definition empty_calldata : string :=
  "0x" +:+ "8829a1d3000000000000000c" +:+ "000000".

(** One of the four signing utilities raises [e] on the way of steps 4b to
    4d, the ones before it having returned. *)
Definition utility_throws {ethers : Ethers}
    (d : DecodedSequencerBatchTransaction.t) (e : exn) : Prop :=
  serializeTransaction (canonical_transaction d) (adjusted_signature d)
    = Throw e
  ∨ ∃ rawTx,
      serializeTransaction (canonical_transaction d) (adjusted_signature d)
        = Ok rawTx
      ∧ (keccak256 rawTx = Throw e
         ∨ ∃ msgHash,
             keccak256 rawTx = Ok msgHash
             ∧ (recoverAddress msgHash (adjusted_signature d) = Throw e
                ∨ ∃ recovered,
                    recoverAddress msgHash (adjusted_signature d)
                      = Ok recovered
                    ∧ parseTransaction rawTx = Throw e)).

(** The sample calldata behind the selector and the leading fields of a
    settlement call instead of twelve zero bytes. *)
Definition selector_calldata : string :=
  "0x" +:+ "8829a1d3000000000000000c" +:+ "000001"
  +:+ "000002" +:+ "000001" +:+ "0000000064" +:+ "0000000005"
  +:+ "000002" +:+ "07aa" +:+ "000001" +:+ "01".

(** The first entry that [parseEvent] returns on the sample calldata. *)
Definition sample_entry : TransactionEntry.t :=
  Eval vm_compute in
    default (provisional_entry 0 0 0)
      (head (ParsedEvent.transactionEntries sample_parsed)).

(** The entries of queue origin [sequencer] pushed so far. *)
Definition sequenced_count (st : Locals.t) : Z :=
  Z.of_nat (length (sequencer_origin_entries (Locals.transactionEntries st))).

(** The cursor has moved by 3 bytes at least from [start] for each
    sequenced entry, and the length of the last one was read inside the
    calldata. *)
Definition cursor_invariant (calldata : Buffer) (start : Z) (st : Locals.t)
    : Prop :=
  start + 3 * sequenced_count st ≤ Locals.nextTxPointer st
  ∧ (0 < sequenced_count st →
     start + 3 * (sequenced_count st - 1) < Z.of_nat (length calldata)).

(** * Properties *)

(** ** The result monad *)

Lemma bind_Ok {A B : Type} (m : result A) (f : A → result B) (b : B) :
  m ≫= f = Ok b → ∃ a, m = Ok a ∧ f a = Ok b.
Proof. destruct m as [a|e]; simpl; [eauto | discriminate]. Qed.

Lemma bind_Throw {A B : Type} (m : result A) (f : A → result B) (e : exn) :
  m ≫= f = Throw e → m = Throw e ∨ ∃ a, m = Ok a ∧ f a = Throw e.
Proof.
  destruct m as [a|e']; simpl; intros He.
  - right. exists a. by split.
  - left. by injection He as ->.
Qed.

Lemma bind_Ok_ret {A B : Type} (a : A) (f : A → result B) : Ok a ≫= f = f a.
Proof. reflexivity. Qed.

(** Splits a hypothesis [x ← m; k = Ok b] into [m = Ok a] and
    [k a = Ok b], as long as it can. *)
Ltac inv_bind H :=
  repeat
    match type of H with
    | mbind _ _ = Ok _ =>
      let a := fresh "a" in
      let Ha := fresh "Ha" in
      apply bind_Ok in H; destruct H as (a & Ha & H); try inv_bind Ha
    end.

(** ** The soft-fork validator and the codec wrapper *)

Lemma slice_head (b : byte) (rest : Buffer) : slice (b :: rest) 0 1 = [b].
Proof.
  unfold slice, clamp_index. simpl length.
  rewrite !decide_False by lia.
  replace (Z.min 0 _) with 0 by lia.
  replace (Z.min 1 _) with 1 by lia.
  reflexivity.
Qed.

Section ValidatorFacts.
Context {codec : Codec} {ethers : Ethers}.

Lemma validate_EIP155_unfold (d : DecodedSequencerBatchTransaction.t) :
  Signature.v (DecodedSequencerBatchTransaction.sig d) = 0
  ∨ Signature.v (DecodedSequencerBatchTransaction.sig d) = 1 →
  validateBatchTransaction (Some "EIP155") (Some d) =
    rawTx ← serializeTransaction (canonical_transaction d)
              (adjusted_signature d);
    msgHash ← keccak256 rawTx;
    recoveredAddress ← recoverAddress msgHash (adjusted_signature d);
    parsedTx ← parseTransaction rawTx;
    Ok (bool_decide
          (Some recoveredAddress = ParsedTransaction.from parsedTx)).
Proof.
  intros Hv. unfold validateBatchTransaction.
  rewrite decide_False by lia.
  rewrite decide_True by reflexivity.
  reflexivity.
Qed.

(** C3: an EIP155 transaction with [v] in [{0, 1}] is accepted exactly
    when the serialization of the canonical transaction with the
    signature adjusted by [35 + 2 * chainId] (chain id 10), its hash, the
    recovery from that hash with the same adjusted signature and the
    re-parse of the serialization all succeed and the recovered address is
    the sender of the re-parsed transaction; it is rejected exactly when
    they succeed and the two differ. *)
Theorem validateBatchTransaction_EIP155_round_trip
    (d : DecodedSequencerBatchTransaction.t) :
  Signature.v (DecodedSequencerBatchTransaction.sig d) = 0
  ∨ Signature.v (DecodedSequencerBatchTransaction.sig d) = 1 →
  (validateBatchTransaction (Some "EIP155") (Some d) = Ok true
   ↔ ∃ recovered, round_trip d recovered (Some recovered))
  ∧ (validateBatchTransaction (Some "EIP155") (Some d) = Ok false
     ↔ ∃ recovered sender,
         round_trip d recovered sender ∧ sender ≠ Some recovered).
Proof.
  intros Hv. rewrite (validate_EIP155_unfold d Hv). unfold round_trip.
  split; split.
  - intros H. inv_bind H. injection H as H.
    apply bool_decide_eq_true in H. eauto 10.
  - intros (recovered & rawTx & msgHash & parsedTx & H1 & H2 & H3 & H4 & E).
    rewrite H1; simpl. rewrite H2; simpl. rewrite H3; simpl.
    rewrite H4; simpl. rewrite E. by rewrite bool_decide_eq_true_2.
  - intros H. inv_bind H. injection H as H.
    apply bool_decide_eq_false in H.
    eexists _, _. split; [eauto 10 | congruence].
  - intros (recovered & sender & (rawTx & msgHash & parsedTx
              & H1 & H2 & H3 & H4 & E) & Hne).
    rewrite H1; simpl. rewrite H2; simpl. rewrite H3; simpl.
    rewrite H4; simpl. rewrite E.
    rewrite bool_decide_eq_false_2; [done | congruence].
Qed.

Lemma validate_ETH_SIGN (d : DecodedSequencerBatchTransaction.t) :
  validateBatchTransaction (Some "ETH_SIGN") (Some d) = Ok false.
Proof.
  unfold validateBatchTransaction.
  destruct (decide _); [done |].
  by rewrite decide_False.
Qed.

Lemma validate_decoded_ETH_SIGN
    (d : option DecodedSequencerBatchTransaction.t) :
  validate_decoded "ETH_SIGN" d
  = (Decoding.mk None (Some "ETH_SIGN"),
     match d with Some _ => None | None => Some TypeError end).
Proof.
  unfold validate_decoded. destruct d as [d|].
  - by rewrite validate_ETH_SIGN.
  - reflexivity.
Qed.

Lemma maybeDecode_try_EIP155 (b : byte) (rest : Buffer) :
  byte_val b = TxType_EIP155 →
  maybeDecode_try (b :: rest) =
    match eip155TxData_decode (toString_hex (b :: rest)) with
    | Throw e => (Decoding.mk None (Some "EIP155"), Some e)
    | Ok d => validate_decoded "EIP155" d
    end.
Proof.
  intros Hb. unfold maybeDecode_try. rewrite slice_head. simpl readUInt8. cbv beta iota.
  by rewrite decide_True.
Qed.

Lemma maybeDecode_try_ETH_SIGN (b : byte) (rest : Buffer) :
  byte_val b ≠ TxType_EIP155 →
  byte_val b = TxType_EthSign →
  maybeDecode_try (b :: rest) =
    match ethSignTxData_decode (toString_hex (b :: rest)) with
    | Throw e => (Decoding.mk None (Some "ETH_SIGN"), Some e)
    | Ok d => validate_decoded "ETH_SIGN" d
    end.
Proof.
  intros Hne Hb. unfold maybeDecode_try. rewrite slice_head. simpl readUInt8. cbv beta iota.
  rewrite decide_False by done. by rewrite decide_True.
Qed.

Lemma maybeDecode_try_unknown (b : byte) (rest : Buffer) :
  byte_val b ≠ TxType_EIP155 →
  byte_val b ≠ TxType_EthSign →
  maybeDecode_try (b :: rest) =
    (Decoding.mk None None,
     Some (Error "Unknown sequencer transaction type.")).
Proof.
  intros H1 H2. unfold maybeDecode_try. rewrite slice_head. simpl readUInt8. cbv beta iota.
  by rewrite !decide_False.
Qed.

(** C4: the validator returns false for a null type, for a decoded
    transaction whose [v] is neither 0 nor 1, and for every ETH_SIGN
    transaction; when it returns false on the decoded transaction of a
    slice, the wrapper returns a null payload with the type tag; and a
    slice with the ETH_SIGN marker always ends with type ['ETH_SIGN'] and
    a null payload. *)
Theorem validateBatchTransaction_rejects :
  TxType_EIP155 ≠ TxType_EthSign →
  (∀ decoded, validateBatchTransaction None decoded = Ok false)
  ∧ (∀ ty d,
       Signature.v (DecodedSequencerBatchTransaction.sig d) ≠ 0 →
       Signature.v (DecodedSequencerBatchTransaction.sig d) ≠ 1 →
       validateBatchTransaction (Some ty) (Some d) = Ok false)
  ∧ (∀ d, validateBatchTransaction (Some "ETH_SIGN") (Some d) = Ok false)
  ∧ (∀ b rest d,
       byte_val b = TxType_EIP155 →
       eip155TxData_decode (toString_hex (b :: rest)) = Ok d →
       validateBatchTransaction (Some "EIP155") d = Ok false →
       maybeDecodeSequencerBatchTransaction (b :: rest)
       = Decoding.mk None (Some "EIP155"))
  ∧ (∀ b rest d,
       byte_val b = TxType_EthSign →
       ethSignTxData_decode (toString_hex (b :: rest)) = Ok d →
       validateBatchTransaction (Some "ETH_SIGN") d = Ok false →
       maybeDecodeSequencerBatchTransaction (b :: rest)
       = Decoding.mk None (Some "ETH_SIGN"))
  ∧ (∀ b rest,
       byte_val b = TxType_EthSign →
       maybeDecodeSequencerBatchTransaction (b :: rest)
       = Decoding.mk None (Some "ETH_SIGN")).
Proof.
  intros Hdistinct. split_and!.
  - reflexivity.
  - intros ty d H0 H1. unfold validateBatchTransaction.
    by rewrite decide_True.
  - apply validate_ETH_SIGN.
  - intros b rest d Hb Hd Hv. unfold maybeDecodeSequencerBatchTransaction.
    rewrite maybeDecode_try_EIP155 by done.
    rewrite Hd. unfold validate_decoded. by rewrite Hv.
  - intros b rest d Hb Hd Hv. unfold maybeDecodeSequencerBatchTransaction.
    rewrite maybeDecode_try_ETH_SIGN by congruence.
    rewrite Hd. unfold validate_decoded. by rewrite Hv.
  - intros b rest Hb. unfold maybeDecodeSequencerBatchTransaction.
    rewrite maybeDecode_try_ETH_SIGN by congruence.
    destruct (ethSignTxData_decode _) as [d|e]; [|done].
    by rewrite validate_decoded_ETH_SIGN.
Qed.


(** C10: with a type that is not null and a null decoded transaction the
    validator throws a TypeError instead of returning false; inside the
    wrapper the exception is raised in the [try] block, for either
    marker, and the wrapper still returns, with a null payload and the
    type tag. *)
Theorem validateBatchTransaction_null_decoded
    (ty : string) (b : byte) (rest : Buffer) :
  validateBatchTransaction (Some ty) None = Throw TypeError
  ∧ (byte_val b = TxType_EIP155 →
     eip155TxData_decode (toString_hex (b :: rest)) = Ok None →
     maybeDecode_try (b :: rest)
     = (Decoding.mk None (Some "EIP155"), Some TypeError)
     ∧ maybeDecodeSequencerBatchTransaction (b :: rest)
       = Decoding.mk None (Some "EIP155"))
  ∧ (byte_val b ≠ TxType_EIP155 →
     byte_val b = TxType_EthSign →
     ethSignTxData_decode (toString_hex (b :: rest)) = Ok None →
     maybeDecode_try (b :: rest)
     = (Decoding.mk None (Some "ETH_SIGN"), Some TypeError)
     ∧ maybeDecodeSequencerBatchTransaction (b :: rest)
       = Decoding.mk None (Some "ETH_SIGN")).
Proof.
  unfold maybeDecodeSequencerBatchTransaction.
  split; [reflexivity | split].
  - intros Hb Hd. rewrite maybeDecode_try_EIP155 by done. by rewrite Hd.
  - intros Hne Hb Hd. rewrite maybeDecode_try_ETH_SIGN by done.
    by rewrite Hd.
Qed.

End ValidatorFacts.

(** ** Numbers and bytes *)

Lemma byte_val_bounds (b : byte) : 0 ≤ byte_val b < 256.
Proof.
  unfold byte_val. pose proof (Byte.to_N_bounded b). lia.
Qed.

Lemma be_uint_snoc (buf : Buffer) (b : byte) :
  be_uint (buf ++ [b]) = be_uint buf * 256 + byte_val b.
Proof. unfold be_uint. by rewrite fold_left_app. Qed.

Lemma be_uint_nonneg (buf : Buffer) : 0 ≤ be_uint buf.
Proof.
  induction buf as [|b buf IH] using rev_ind; [done |].
  rewrite be_uint_snoc. pose proof (byte_val_bounds b). lia.
Qed.

Lemma toNumber_Ok (x y : Z) :
  BigNumber.toNumber x = Ok y → y = x ∧ Z.abs x < 2 ^ 53.
Proof.
  unfold BigNumber.toNumber. destruct (decide _); [|discriminate].
  intros [= <-]. done.
Qed.

Lemma from_number_Ok (x y : Z) :
  BigNumber.from_number x = Ok y → y = x ∧ Z.abs x < MAX_SAFE.
Proof.
  unfold BigNumber.from_number. destruct (decide _); [discriminate |].
  intros [= <-]. split; [done | lia].
Qed.

Lemma from_bytes_Ok (buf : Buffer) (n : Z) :
  BigNumber.from_bytes buf = Ok n → buf ≠ [] ∧ n = be_uint buf.
Proof. destruct buf; [discriminate |]. by intros [= <-]. Qed.

Lemma toNumber_safe (x : Z) : Z.abs x < 2 ^ 53 → BigNumber.toNumber x = Ok x.
Proof. intros Hx. unfold BigNumber.toNumber. by rewrite decide_True. Qed.

Lemma from_number_safe (x : Z) :
  Z.abs x < MAX_SAFE → BigNumber.from_number x = Ok x.
Proof.
  intros Hx. unfold BigNumber.from_number. rewrite decide_False; [done | lia].
Qed.

(** Turns the conversions that returned into equations between numbers. *)
Ltac inv_num :=
  repeat
    match goal with
    | H : BigNumber.toNumber _ = Ok _ |- _ =>
      apply toNumber_Ok in H; destruct H as [? ?]
    | H : BigNumber.from_number _ = Ok _ |- _ =>
      apply from_number_Ok in H; destruct H as [? ?]
    | H : BigNumber.from_bytes _ = Ok _ |- _ =>
      apply from_bytes_Ok in H; destruct H as [? ?]
    | H : Ok _ = Ok _ |- _ => injection H as H
    end.

Lemma parseSequencerBatchContext_Ok (calldata : Buffer) (offset : Z)
    (c : SequencerBatchContext.t) :
  parseSequencerBatchContext calldata offset = Ok c →
  0 ≤ SequencerBatchContext.numSequencedTransactions c
  ∧ 0 ≤ SequencerBatchContext.numSubsequentQueueTransactions c.
Proof.
  unfold parseSequencerBatchContext. intros Hc. inv_bind Hc. inv_num.
  subst. simpl. split; apply be_uint_nonneg.
Qed.

(** ** What [parseEvent] returns when it returns *)

Section ParseEventReturns.
Context {codec : Codec} {ethers : Ethers}.
Variable event : BatchAppendedEvent.
Variable extraData : ExtraData.t.
Variable calldata : Buffer.

Lemma sequenced_body_Ok (c : SequencerBatchContext.t) (j : Z)
    (st st' : Locals.t) :
  sequenced_body extraData calldata c j st = Ok st' →
  ∃ tx,
    parseSequencerBatchTransaction calldata (Locals.nextTxPointer st) = Ok tx
    ∧ st' =
      {| Locals.transactionEntries :=
           Locals.transactionEntries st
           ++ [sequencer_entry extraData c (Locals.transactionIndex st) tx];
         Locals.transactionIndex := Locals.transactionIndex st + 1;
         Locals.enqueuedCount := Locals.enqueuedCount st;
         Locals.nextTxPointer :=
           Locals.nextTxPointer st + (3 + Z.of_nat (length tx)) |}.
Proof.
  unfold sequenced_body. intros Hst. inv_bind Hst.
  match goal with
  | H : parseSequencerBatchTransaction _ _ = Ok ?tx |- _ =>
    exists tx; split; [exact H |]
  end.
  inv_num. subst. reflexivity.
Qed.

Lemma queued_body_Ok (j : Z) (st st' : Locals.t) :
  queued_body event extraData j st = Ok st' →
  st' =
    {| Locals.transactionEntries :=
         Locals.transactionEntries st
         ++ [queue_entry event extraData (Locals.transactionIndex st)
               (Locals.enqueuedCount st)];
       Locals.transactionIndex := Locals.transactionIndex st + 1;
       Locals.enqueuedCount := Locals.enqueuedCount st + 1;
       Locals.nextTxPointer := Locals.nextTxPointer st |}.
Proof.
  unfold queued_body. intros Hst. inv_bind Hst. inv_num. subst. reflexivity.
Qed.

Lemma sequenced_loop_Ok (c : SequencerBatchContext.t) (n : nat) :
  ∀ (j : Z) (st st' : Locals.t),
    for_loop n j (sequenced_body extraData calldata c) st = Ok st' →
    ∃ txs,
      length txs = n
      ∧ Locals.transactionEntries st' =
          Locals.transactionEntries st
          ++ sequencer_entries extraData c (Locals.transactionIndex st) txs
      ∧ Locals.transactionIndex st'
        = Locals.transactionIndex st + Z.of_nat n
      ∧ Locals.enqueuedCount st' = Locals.enqueuedCount st.
Proof.
  induction n as [|n IH]; intros j st st' Hloop; simpl in Hloop.
  - injection Hloop as <-. exists []. rewrite app_nil_r. split_and!; [done..|lia|done].
  - apply bind_Ok in Hloop as (st1 & Hbody & Hloop).
    apply sequenced_body_Ok in Hbody as (tx & _ & ->).
    apply IH in Hloop as (txs & Hlen & Hentries & Hindex & Hcount).
    simpl in *. exists (tx :: txs). split_and!.
    + simpl. by rewrite Hlen.
    + rewrite Hentries. simpl. by rewrite <- app_assoc.
    + lia.
    + done.
Qed.

Lemma queued_loop_Ok (n : nat) :
  ∀ (j : Z) (st st' : Locals.t),
    for_loop n j (queued_body event extraData) st = Ok st' →
    Locals.transactionEntries st' =
      Locals.transactionEntries st
      ++ queue_entries event extraData (Locals.transactionIndex st)
           (Locals.enqueuedCount st) n
    ∧ Locals.transactionIndex st' = Locals.transactionIndex st + Z.of_nat n
    ∧ Locals.enqueuedCount st' = Locals.enqueuedCount st + Z.of_nat n.
Proof.
  induction n as [|n IH]; intros j st st' Hloop; simpl in Hloop.
  - injection Hloop as <-. rewrite app_nil_r. split_and!; [done|lia..].
  - apply bind_Ok in Hloop as (st1 & Hbody & Hloop).
    apply queued_body_Ok in Hbody as ->.
    apply IH in Hloop as (Hentries & Hindex & Hcount).
    simpl in *. split_and!.
    + rewrite Hentries. by rewrite <- app_assoc.
    + lia.
    + lia.
Qed.

Lemma context_body_Ok (i : Z) (st st' : Locals.t) :
  context_body event extraData calldata i st = Ok st' →
  ∃ b,
    parseSequencerBatchContext calldata (15 + 16 * i) = Ok b.1
    ∧ slices_match b
    ∧ Locals.transactionEntries st' =
        Locals.transactionEntries st
        ++ context_entries event extraData (Locals.transactionIndex st)
             (Locals.enqueuedCount st) b
    ∧ Locals.transactionIndex st' =
        Locals.transactionIndex st + Z.of_nat (length b.2)
        + SequencerBatchContext.numSubsequentQueueTransactions b.1
    ∧ Locals.enqueuedCount st' =
        Locals.enqueuedCount st
        + SequencerBatchContext.numSubsequentQueueTransactions b.1.
Proof.
  unfold context_body, for_upto. intros Hst.
  apply bind_Ok in Hst as (c & Hc & Hst).
  apply bind_Ok in Hst as (st1 & Hseq & Hqueue).
  destruct (parseSequencerBatchContext_Ok _ _ _ Hc) as [Hs Hq].
  apply sequenced_loop_Ok in Hseq as (txs & Hlen & E1 & I1 & C1).
  apply queued_loop_Ok in Hqueue as (E2 & I2 & C2).
  exists (c, txs). unfold slices_match, context_entries. simpl.
  split_and!; [done | lia | done | | lia | lia].
  rewrite E2, E1, I1, C1, Hlen, <- app_assoc. reflexivity.
Qed.

Lemma context_loop_Ok (n : nat) :
  ∀ (i : Z) (st st' : Locals.t),
    for_loop n i (context_body event extraData calldata) st = Ok st' →
    ∃ batch : Batch,
      length batch = n
      ∧ (∀ (k : nat) b, batch !! k = Some b →
           parseSequencerBatchContext calldata (15 + 16 * (i + Z.of_nat k))
           = Ok b.1)
      ∧ Forall slices_match batch
      ∧ Locals.transactionEntries st' =
          Locals.transactionEntries st
          ++ batch_entries event extraData (Locals.transactionIndex st)
               (Locals.enqueuedCount st) batch.
Proof.
  induction n as [|n IH]; intros i st st' Hloop; simpl in Hloop.
  - injection Hloop as <-. exists []. rewrite app_nil_r.
    split_and!; [done | | done..]. intros k b Hk. discriminate.
  - apply bind_Ok in Hloop as (st1 & Hbody & Hloop).
    apply context_body_Ok in Hbody as (b & Hc & Hm & E1 & I1 & C1).
    apply IH in Hloop as (batch & Hlen & Hctx & Hall & E2).
    exists (b :: batch). split_and!.
    + simpl. by rewrite Hlen.
    + intros [|k] b' Hk; simpl in Hk.
      * injection Hk as <-. by rewrite Z.add_0_r.
      * apply Hctx in Hk. rewrite <- Hk. f_equal. lia.
    + by constructor.
    + rewrite E2, E1, I1, C1, <- app_assoc. reflexivity.
Qed.

End ParseEventReturns.

(** The master statement: the entries are those of a batch whose contexts
    are the ones of the calldata. *)
Lemma parseEvent_Ok {codec : Codec} {ethers : Ethers}
    (event : BatchAppendedEvent) (extraData : ExtraData.t)
    (r : ParsedEvent.t) :
  parseEvent event extraData = Ok r →
  ∃ batch : Batch,
    contexts_at (fromHexString (ExtraData.l1TransactionData extraData))
      batch.*1
    ∧ Forall slices_match batch
    ∧ ParsedEvent.transactionEntries r
      = batch_entries event extraData 0 0 batch
    ∧ TransactionBatchEntry.size (ParsedEvent.transactionBatchEntry r)
      = ExtraData.batchSize extraData
    ∧ TransactionBatchEntry.prevTotalElements
        (ParsedEvent.transactionBatchEntry r)
      = ExtraData.prevTotalElements extraData.
Proof.
  intros Hr. unfold parseEvent, for_upto in Hr.
  apply bind_Ok in Hr as (numContexts & Hn & Hr).
  apply bind_Ok in Hr as (st & Hloop & Hr).
  apply context_loop_Ok in Hloop as (batch & Hlen & Hctx & Hall & E).
  inv_bind Hr. inv_bind Hn. inv_num. subst. simpl in *.
  exists batch. split_and!; [| done..].
  split.
  - rewrite length_fmap, Hlen.
    match goal with
    | |- BigNumber.from_bytes ?s = _ =>
      pose proof (be_uint_nonneg s);
      destruct s; [done |]
    end.
    simpl. f_equal. lia.
  - intros k c Hk. apply list_lookup_fmap_Some in Hk as (b & -> & Hk).
    apply Hctx in Hk. by rewrite Z.add_0_l in Hk.
Qed.

(** ** The entries of a batch *)

Lemma total_elements_cons (c : SequencerBatchContext.t)
    (contexts : list SequencerBatchContext.t) :
  total_elements (c :: contexts) = context_size c + total_elements contexts.
Proof. reflexivity. Qed.

Lemma total_elements_nonneg (batch : Batch) :
  Forall slices_match batch → 0 ≤ total_elements batch.*1.
Proof.
  induction 1 as [|b batch [Hs Hq] _ IH]; [done |].
  rewrite fmap_cons, total_elements_cons. unfold context_size. lia.
Qed.

Lemma contexts_at_unique (calldata : Buffer)
    (l1 l2 : list SequencerBatchContext.t) :
  contexts_at calldata l1 → contexts_at calldata l2 → l1 = l2.
Proof.
  intros [Hn1 H1] [Hn2 H2].
  assert (length l1 = length l2) as Hlen.
  { rewrite Hn1 in Hn2. injection Hn2 as Hn2. lia. }
  apply list_eq. intros i.
  destruct (l1 !! i) as [c1|] eqn:E1.
  - destruct (lookup_lt_is_Some_2 l2 i) as [c2 E2].
    { rewrite <- Hlen. by eapply lookup_lt_Some. }
    rewrite E2. apply H1 in E1. apply H2 in E2. congruence.
  - symmetry. apply lookup_ge_None. rewrite <- Hlen.
    by apply lookup_ge_None.
Qed.

Section BatchEntries.
Context {codec : Codec} {ethers : Ethers}.
Variable event : BatchAppendedEvent.
Variable extraData : ExtraData.t.

Lemma sequencer_entries_length c k txs :
  length (sequencer_entries extraData c k txs) = length txs.
Proof. revert k. induction txs as [|tx txs IH]; intros k; simpl; auto. Qed.

Lemma queue_entries_length k q n :
  length (queue_entries event extraData k q n) = n.
Proof. revert k q. induction n as [|n IH]; intros k q; simpl; auto. Qed.

Lemma sequencer_entries_index c k txs :
  TransactionEntry.index <$> sequencer_entries extraData c k txs
  = seqZ (ExtraData.prevTotalElements extraData + k) (Z.of_nat (length txs)).
Proof.
  revert k. induction txs as [|tx txs IH]; intros k; [done |].
  simpl length. rewrite Nat2Z.inj_succ, seqZ_cons by lia.
  simpl. rewrite IH. do 2 f_equal; lia.
Qed.

Lemma queue_entries_index k q n :
  TransactionEntry.index <$> queue_entries event extraData k q n
  = seqZ (ExtraData.prevTotalElements extraData + k) (Z.of_nat n).
Proof.
  revert k q. induction n as [|n IH]; intros k q; [done |].
  rewrite Nat2Z.inj_succ, seqZ_cons by lia.
  simpl. rewrite IH. do 2 f_equal; lia.
Qed.

Lemma batch_entries_index (batch : Batch) :
  Forall slices_match batch →
  ∀ k q,
    TransactionEntry.index <$> batch_entries event extraData k q batch
    = seqZ (ExtraData.prevTotalElements extraData + k)
        (total_elements batch.*1).
Proof.
  induction 1 as [|b batch [Hs Hq] Hall IH]; intros k q; [done |].
  pose proof (total_elements_nonneg batch Hall).
  rewrite fmap_cons, total_elements_cons. unfold context_size.
  simpl. unfold context_entries. rewrite !fmap_app.
  rewrite sequencer_entries_index, queue_entries_index, IH.
  rewrite Z2Nat.id by done. rewrite <- Hs.
  rewrite (seqZ_app _ (_ + _)) by lia.
  rewrite (seqZ_app _ (Z.of_nat _)) by lia.
  f_equal; [f_equal |]; f_equal; lia.
Qed.

Lemma sequencer_entries_block c k txs :
  Forall (λ e, TransactionEntry.queueOrigin e = sequencer
               ∧ TransactionEntry.blockNumber e
                 = SequencerBatchContext.blockNumber c
               ∧ TransactionEntry.timestamp e
                 = SequencerBatchContext.timestamp c
               ∧ TransactionEntry.queueIndex e = None)
    (sequencer_entries extraData c k txs).
Proof.
  revert k. induction txs as [|tx txs IH]; intros k; simpl;
    constructor; auto.
Qed.

Lemma queue_entries_lookup k q n (i : nat) e :
  queue_entries event extraData k q n !! i = Some e →
  e = queue_entry event extraData (k + Z.of_nat i) (q + Z.of_nat i).
Proof.
  revert k q i. induction n as [|n IH]; intros k q i Hi; [done |].
  destruct i as [|i]; simpl in Hi.
  - injection Hi as <-. by rewrite !Z.add_0_r.
  - apply IH in Hi as ->. f_equal; lia.
Qed.

Lemma queue_entries_origin k q n :
  Forall (λ e, TransactionEntry.queueOrigin e = l1)
    (queue_entries event extraData k q n).
Proof.
  revert k q. induction n as [|n IH]; intros k q; simpl; constructor; auto.
Qed.

Lemma batch_entries_blocks (batch : Batch) :
  Forall slices_match batch →
  ∀ k q, ∃ blocks,
    Forall2 context_block batch.*1 blocks
    ∧ batch_entries event extraData k q batch
      = concat ((λ b, b.1 ++ b.2) <$> blocks).
Proof.
  induction 1 as [|b batch [Hs Hq] Hall IH]; intros k q.
  - exists []. split; [constructor | done].
  - destruct (IH
      (k + Z.of_nat (length b.2)
         + SequencerBatchContext.numSubsequentQueueTransactions b.1)
      (q + SequencerBatchContext.numSubsequentQueueTransactions b.1))
      as (blocks & Hblocks & E).
    exists ((sequencer_entries extraData b.1 k b.2,
             queue_entries event extraData (k + Z.of_nat (length b.2)) q
               (Z.to_nat
                  (SequencerBatchContext.numSubsequentQueueTransactions b.1)))
            :: blocks).
    split.
    + rewrite fmap_cons. constructor; [|done].
      unfold context_block. simpl.
      rewrite sequencer_entries_length, queue_entries_length.
      split_and!; [done | | lia | apply queue_entries_origin].
      eapply List.Forall_impl; [|apply sequencer_entries_block].
      simpl. intros e (? & ? & ? & _). done.
    + simpl. rewrite E. reflexivity.
Qed.

Lemma sequencer_entries_queue_origin c k txs :
  queue_origin_entries (sequencer_entries extraData c k txs) = [].
Proof.
  unfold queue_origin_entries. revert k.
  induction txs as [|tx txs IH]; intros k; [done |].
  simpl. rewrite filter_cons_False by done. apply IH.
Qed.

Lemma queue_entries_queue_origin k q n :
  queue_origin_entries (queue_entries event extraData k q n)
  = queue_entries event extraData k q n.
Proof.
  unfold queue_origin_entries. revert k q.
  induction n as [|n IH]; intros k q; [done |].
  simpl. rewrite filter_cons_True by done. by rewrite IH.
Qed.

(** The entries of queue origin are provisional entries, and the one of
    rank [i] has queue index [startingQueueIndex + q + i]. *)
Lemma batch_entries_queue_origin (batch : Batch) :
  Forall slices_match batch →
  ∀ k q (i : nat) e,
    queue_origin_entries (batch_entries event extraData k q batch) !! i
      = Some e →
    e = provisional_entry (TransactionEntry.index e)
          (ExtraData.batchIndex extraData)
          (EventArgsSequencerBatchAppended._startingQueueIndex
             (Event.args event) + (q + Z.of_nat i)).
Proof.
  induction 1 as [|b batch [Hs Hq] Hall IH]; intros k q i e Hi; [done |].
  simpl in Hi. unfold context_entries, queue_origin_entries in Hi.
  rewrite !list.filter_app in Hi.
  fold (queue_origin_entries (sequencer_entries extraData b.1 k b.2)) in Hi.
  rewrite sequencer_entries_queue_origin in Hi. simpl in Hi.
  match type of Hi with
  | (filter _ (queue_entries ?ev ?ex ?k' ?q' ?n) ++ _) !! _ = _ =>
    fold (queue_origin_entries (queue_entries ev ex k' q' n)) in Hi
  end.
  rewrite queue_entries_queue_origin in Hi.
  apply lookup_app_Some in Hi as [Hi | [Hge Hi]].
  - apply queue_entries_lookup in Hi as ->.
    unfold queue_entry. simpl. f_equal; lia.
  - rewrite queue_entries_length in Hge, Hi.
    apply IH in Hi as ->. simpl. f_equal; lia.
Qed.

Lemma batch_entries_sequencer (batch : Batch) :
  ∀ k q,
    Forall (λ e, TransactionEntry.queueOrigin e = sequencer →
                 TransactionEntry.queueIndex e = None)
      (batch_entries event extraData k q batch).
Proof.
  induction batch as [|b batch IH]; intros k q; simpl; [constructor |].
  unfold context_entries. rewrite !Forall_app. split_and!.
  - eapply List.Forall_impl; [|apply sequencer_entries_block].
    simpl. intros e (_ & _ & _ & ?) _. done.
  - eapply List.Forall_impl; [|apply queue_entries_origin].
    simpl. intros e He He'. congruence.
  - apply IH.
Qed.

End BatchEntries.

Lemma store_queue_indices_spec (entries : list TransactionEntry.t) :
  store_queue_indices entries
  = (λ e, putTransactionIndexByQueueIndex (TransactionEntry.queueIndex e)
            (TransactionEntry.index e))
    <$> queue_origin_entries entries.
Proof.
  unfold queue_origin_entries.
  induction entries as [|e entries IH]; [done |].
  simpl. destruct (decide (TransactionEntry.queueOrigin e = l1)).
  - rewrite filter_cons_True by done. simpl. by rewrite IH.
  - rewrite filter_cons_False by done. apply IH.
Qed.

Lemma read_contexts_from_Ok (calldata : Buffer) (n : nat) :
  ∀ (i : Z) (contexts : list SequencerBatchContext.t),
    read_contexts_from calldata n i = Ok contexts
    ↔ length contexts = n
      ∧ ∀ (k : nat) c, contexts !! k = Some c →
          parseSequencerBatchContext calldata (15 + 16 * (i + Z.of_nat k))
          = Ok c.
Proof.
  induction n as [|n IH]; intros i contexts; simpl.
  - split.
    + intros [= <-]. split; [done |]. intros k c Hk. discriminate.
    + intros [Hlen _]. destruct contexts; [done | discriminate].
  - split.
    + intros Hr. inv_bind Hr. injection Hr as <-.
      match goal with
      | H : read_contexts_from _ _ _ = Ok _ |- _ =>
        apply IH in H as [Hlen Hctx]
      end.
      split; [simpl; by rewrite Hlen |].
      intros [|k] c Hk; simpl in Hk.
      * injection Hk as <-. by rewrite Z.add_0_r.
      * apply Hctx in Hk. rewrite <- Hk. f_equal. lia.
    + intros [Hlen Hctx]. destruct contexts as [|c contexts]; [discriminate |].
      pose proof (Hctx 0%nat c eq_refl) as Hc. simpl in Hc.
      rewrite Z.add_0_r in Hc. rewrite Hc. simpl.
      assert (read_contexts_from calldata n (i + 1) = Ok contexts) as ->; [|done].
      apply IH. split; [simpl in Hlen; lia |].
      intros k c' Hk. rewrite <- (Hctx (S k) c' Hk). f_equal. lia.
Qed.

Lemma read_contexts_Ok (calldata : Buffer)
    (contexts : list SequencerBatchContext.t) :
  read_contexts calldata = Ok contexts ↔ contexts_at calldata contexts.
Proof.
  unfold read_contexts, contexts_at. split.
  - intros Hr. apply bind_Ok in Hr as (n & Hn & Hr).
    apply read_contexts_from_Ok in Hr as [Hlen Hctx].
    split.
    + rewrite Hn. f_equal. apply from_bytes_Ok in Hn as [_ ->].
      pose proof (be_uint_nonneg (slice calldata 12 15)). lia.
    + intros i c Hi. apply Hctx in Hi. by rewrite Z.add_0_l in Hi.
  - intros [Hn Hctx]. rewrite Hn. simpl. rewrite Nat2Z.id.
    apply read_contexts_from_Ok. split; [done |].
    intros k c Hk. rewrite Z.add_0_l. by apply Hctx.
Qed.

(** ** The claims on [parseEvent] and [storeEvent] *)

Section ParseEventClaims.
Context {codec : Codec} {ethers : Ethers}.

(** With or without the batch size: the index values are the integers from
    [prevTotalElements] on, as many as the contexts of the calldata
    announce. *)
Lemma parseEvent_index_contiguous (event : BatchAppendedEvent)
    (extraData : ExtraData.t) (r : ParsedEvent.t)
    (contexts : list SequencerBatchContext.t) :
  parseEvent event extraData = Ok r →
  read_contexts (fromHexString (ExtraData.l1TransactionData extraData))
    = Ok contexts →
  TransactionEntry.index <$> ParsedEvent.transactionEntries r
  = seqZ (ExtraData.prevTotalElements extraData) (total_elements contexts).
Proof.
  intros Hr Hcontexts.
  apply parseEvent_Ok in Hr as (batch & Hat & Hall & -> & _).
  apply read_contexts_Ok in Hcontexts.
  rewrite (contexts_at_unique _ _ _ Hcontexts Hat).
  rewrite (batch_entries_index event extraData batch Hall 0 0).
  by rewrite Z.add_0_r.
Qed.

(** C1: for a batch-appended event with valid calldata (the context counts
    of the calldata add up to the batch size of the companion event), the
    index values of the entries of [parseEvent] are, in order, the integers
    of [[prevTotalElements, prevTotalElements + size)]: none is missing,
    none is repeated, and [size] and [prevTotalElements] are those recorded
    in the batch entry. *)
Theorem parseEvent_index_range (event : BatchAppendedEvent)
    (extraData : ExtraData.t) (r : ParsedEvent.t) :
  parseEvent event extraData = Ok r →
  valid_calldata extraData →
  let batchEntry := ParsedEvent.transactionBatchEntry r in
  let prevTotalElements := TransactionBatchEntry.prevTotalElements batchEntry in
  let size := TransactionBatchEntry.size batchEntry in
  let indices :=
    TransactionEntry.index <$> ParsedEvent.transactionEntries r in
  size = ExtraData.batchSize extraData
  ∧ prevTotalElements = ExtraData.prevTotalElements extraData
  ∧ indices = seqZ prevTotalElements size
  ∧ NoDup indices
  ∧ ∀ i, i ∈ indices ↔ prevTotalElements ≤ i < prevTotalElements + size.
Proof.
  intros Hr (contexts & Hcontexts & Htotal). simpl.
  rewrite (parseEvent_index_contiguous event extraData r contexts Hr
             Hcontexts).
  apply parseEvent_Ok in Hr as (batch & _ & _ & _ & -> & ->).
  rewrite Htotal.
  split_and!; [done | done | done | apply NoDup_seqZ |].
  intros i. apply elem_of_seqZ.
Qed.

(** C2: the entries of [parseEvent] are the concatenation, over the
    contexts of the calldata in their order, of the context's sequenced
    entries (as many as [numSequencedTransactions], of queue origin
    [sequencer], with the block number and timestamp of the context)
    followed by its queued entries (as many as
    [numSubsequentQueueTransactions], of queue origin [l1]). *)
Theorem parseEvent_order (event : BatchAppendedEvent)
    (extraData : ExtraData.t) (r : ParsedEvent.t) :
  parseEvent event extraData = Ok r →
  ∃ contexts blocks,
    read_contexts (fromHexString (ExtraData.l1TransactionData extraData))
      = Ok contexts
    ∧ Forall2 context_block contexts blocks
    ∧ ParsedEvent.transactionEntries r
      = concat ((λ b, b.1 ++ b.2) <$> blocks).
Proof.
  intros Hr.
  apply parseEvent_Ok in Hr as (batch & Hat & Hall & -> & _).
  destruct (batch_entries_blocks event extraData batch Hall 0 0)
    as (blocks & Hblocks & E).
  exists batch.*1, blocks. split_and!; [| done..].
  by apply read_contexts_Ok.
Qed.

(** C9: the entries of queue origin [l1] are provisional entries (type
    ['EIP155'], null payload, block number and timestamp 0, zero-filled
    target and origin), and the one of rank [i] among them has queue index
    [startingQueueIndex + i]; an entry of queue origin [sequencer] has a
    null queue index; and [storeEvent] records the reverse lookup from queue
    index to index for the entries of queue origin [l1], in order, and for
    no other. *)
Theorem parseEvent_queue_entries (event : BatchAppendedEvent)
    (extraData : ExtraData.t) (r : ParsedEvent.t) :
  parseEvent event extraData = Ok r →
  let entries := ParsedEvent.transactionEntries r in
  (∀ (i : nat) e,
     queue_origin_entries entries !! i = Some e →
     e = provisional_entry (TransactionEntry.index e)
           (ExtraData.batchIndex extraData)
           (EventArgsSequencerBatchAppended._startingQueueIndex
              (Event.args event) + Z.of_nat i))
  ∧ (∀ e, e ∈ entries →
       TransactionEntry.queueOrigin e = sequencer →
       TransactionEntry.queueIndex e = None)
  ∧ storeEvent r
    = putTransactionBatchEntries [ParsedEvent.transactionBatchEntry r]
      :: putTransactionEntries entries
      :: ((λ e, putTransactionIndexByQueueIndex
                  (TransactionEntry.queueIndex e) (TransactionEntry.index e))
          <$> queue_origin_entries entries).
Proof.
  intros Hr. simpl. unfold storeEvent. rewrite store_queue_indices_spec.
  apply parseEvent_Ok in Hr as (batch & Hat & Hall & -> & _).
  split_and!; [| | done].
  - intros i e Hi.
    apply (batch_entries_queue_origin event extraData batch Hall) in Hi.
    by rewrite Z.add_0_l in Hi.
  - intros e He.
    pose proof (batch_entries_sequencer event extraData batch 0 0) as Hseq.
    rewrite list.Forall_forall in Hseq. by apply Hseq.
Qed.

End ParseEventClaims.

(** ** Slices *)

Lemma slice_take_drop (buf : Buffer) (start stop : Z) :
  0 ≤ start → start ≤ stop →
  slice buf start stop
  = take (Z.to_nat (stop - start)) (drop (Z.to_nat start) buf).
Proof.
  intros Hstart Hstop. unfold slice, clamp_index.
  rewrite !decide_False by lia.
  destruct (decide (start ≤ Z.of_nat (length buf))) as [Hin|Hout].
  - rewrite (Z.min_l start) by done.
    destruct (decide (stop ≤ Z.of_nat (length buf))).
    + by rewrite (Z.min_l stop).
    + rewrite (Z.min_r stop) by lia.
      rewrite !take_ge; [done | |]; rewrite length_drop; lia.
  - rewrite !Z.min_r by lia.
    rewrite !drop_ge by lia. by rewrite !take_nil.
Qed.

Lemma slice_length (buf : Buffer) (start stop : Z) :
  0 ≤ start → start ≤ stop →
  Z.of_nat (length (slice buf start stop)) ≤ stop - start.
Proof.
  intros Hstart Hstop. rewrite slice_take_drop by done.
  rewrite length_take. lia.
Qed.

Lemma slice_nonempty (buf : Buffer) (start stop : Z) :
  0 ≤ start < Z.of_nat (length buf) → start < stop →
  slice buf start stop ≠ [].
Proof.
  intros Hstart Hstop. rewrite slice_take_drop by lia.
  intros Hnil. apply (f_equal length) in Hnil.
  rewrite length_take, length_drop in Hnil. simpl in Hnil. lia.
Qed.

(** The bytes [x] that follow a prefix [a] are the slice from [length a]. *)
Lemma slice_app (a x b : Buffer) (start : Z) :
  start = Z.of_nat (length a) →
  slice (a ++ x ++ b) start (start + Z.of_nat (length x)) = x.
Proof.
  intros ->. rewrite slice_take_drop by lia.
  rewrite Nat2Z.id, drop_app_length.
  replace (Z.to_nat _) with (length x) by lia.
  by rewrite take_app_length.
Qed.

Lemma be_uint_bound (buf : Buffer) : be_uint buf < 256 ^ Z.of_nat (length buf).
Proof.
  induction buf as [|b buf IH] using rev_ind; [done |].
  rewrite be_uint_snoc, length_app. simpl length.
  replace (Z.of_nat (length buf + 1)) with (Z.of_nat (length buf) + 1) by lia.
  rewrite Z.pow_add_r by lia.
  pose proof (byte_val_bounds b). lia.
Qed.

(** A field of at most 5 bytes converts to a number. *)
Lemma read_field (calldata : Buffer) (start stop : Z) :
  0 ≤ start < Z.of_nat (length calldata) → start < stop ≤ start + 5 →
  BigNumber.from_bytes (slice calldata start stop) ≫= BigNumber.toNumber
  = Ok (be_uint (slice calldata start stop)).
Proof.
  intros Hstart Hstop.
  pose proof (slice_nonempty calldata start stop Hstart ltac:(lia)) as Hne.
  pose proof (slice_length calldata start stop ltac:(lia) ltac:(lia)) as Hlen.
  pose proof (be_uint_bound (slice calldata start stop)) as Hb.
  pose proof (be_uint_nonneg (slice calldata start stop)) as H0.
  destruct (slice calldata start stop) as [|b s] eqn:E; [done |].
  simpl. apply toNumber_safe.
  assert (256 ^ Z.of_nat (length (b :: s)) ≤ 256 ^ 5).
  { apply Z.pow_le_mono_r; lia. }
  lia.
Qed.


(** Past the end of the calldata there is no length to read. *)
Lemma parseSequencerBatchTransaction_past_end (calldata : Buffer) (offset : Z) :
  Z.of_nat (length calldata) ≤ offset →
  parseSequencerBatchTransaction calldata offset
  = Throw InvalidBigNumberString.
Proof.
  intros Hoffset. unfold parseSequencerBatchTransaction.
  rewrite slice_take_drop by lia. rewrite drop_ge by lia.
  by rewrite take_nil.
Qed.

(** ** The companion event *)

(** [find] returns the first element that satisfies the predicate. *)
Lemma find_first {A : Type} (f : A → bool) (l : list A) (x : A) :
  List.find f l = Some x →
  ∃ i : nat,
    l !! i = Some x ∧ f x = true
    ∧ ∀ (j : nat) y, (j < i)%nat → l !! j = Some y → f y = false.
Proof.
  induction l as [|a l IH]; [discriminate |].
  simpl. destruct (f a) eqn:Ha.
  - intros [= ->]. exists 0%nat. split_and!; [done..|]. intros j y Hj. lia.
  - intros Hfind. destruct (IH Hfind) as (i & Hi & Hx & Hmin).
    exists (S i). split_and!; [done..|].
    intros [|j] y Hj Hy; simpl in Hy.
    + by injection Hy as <-.
    + apply (Hmin j y); [lia | done].
Qed.

Lemma is_companion_true (event : BatchAppendedEvent)
    (foundEvent : BatchSubmittedEvent) :
  is_companion event foundEvent = true
  ↔ Event.transactionHash foundEvent = Event.transactionHash event
    ∧ Event.logIndex foundEvent = Event.logIndex event - 1.
Proof.
  unfold is_companion. rewrite andb_true_iff, !bool_decide_eq_true. done.
Qed.

Section CompanionEvent.
Context {codec : Codec} {ethers : Ethers} {provider : ChainProvider}.

(** C8: the resolver queries the TransactionBatchAppended events of the
    block of the event only; it takes its batch metadata from an event of
    that block with the transaction hash of the batch-appended event and
    the log index just before it, the first one in the query's order; when
    the block has none it throws, and the processing of the event ends
    with no store call. *)
Theorem getExtraData_companion (event : BatchAppendedEvent)
    (l1Transaction : L1Transaction.t) (eventBlock : Block.t)
    (found : list BatchSubmittedEvent) :
  getTransaction event = Ok l1Transaction →
  getBlock event = Ok eventBlock →
  queryFilter_TransactionBatchAppended (Event.address event)
    (Block.number eventBlock) (Block.number eventBlock) = Ok found →
  (* the companion that is selected *)
  (∀ extraData, getExtraData event = Ok extraData →
     ∃ (i : nat) companion,
       found !! i = Some companion
       ∧ Event.transactionHash companion = Event.transactionHash event
       ∧ Event.logIndex companion = Event.logIndex event - 1
       ∧ (∀ (j : nat) other, (j < i)%nat → found !! j = Some other →
            ¬ (Event.transactionHash other = Event.transactionHash event
               ∧ Event.logIndex other = Event.logIndex event - 1))
       ∧ ExtraData.prevTotalElements extraData
         = EventArgsTransactionBatchAppended._prevTotalElements
             (Event.args companion)
       ∧ ExtraData.batchIndex extraData
         = EventArgsTransactionBatchAppended._batchIndex
             (Event.args companion)
       ∧ ExtraData.batchSize extraData
         = EventArgsTransactionBatchAppended._batchSize
             (Event.args companion)
       ∧ ExtraData.batchRoot extraData
         = EventArgsTransactionBatchAppended._batchRoot
             (Event.args companion)
       ∧ ExtraData.batchExtraData extraData
         = EventArgsTransactionBatchAppended._extraData
             (Event.args companion))
  (* a companion in the block is found *)
  ∧ ((∃ companion, companion ∈ found
        ∧ Event.transactionHash companion = Event.transactionHash event
        ∧ Event.logIndex companion = Event.logIndex event - 1) →
     ∃ extraData, getExtraData event = Ok extraData)
  (* no companion: a fatal error and no store call *)
  ∧ ((∀ companion, companion ∈ found →
        ¬ (Event.transactionHash companion = Event.transactionHash event
           ∧ Event.logIndex companion = Event.logIndex event - 1)) →
     getExtraData event = Throw (Error missing_companion_message)
     ∧ handleEvent event = ([], Some (Error missing_companion_message)))
  (* only the block of the event is queried *)
  ∧ (∀ other : ChainProvider,
       @getTransaction other event = Ok l1Transaction →
       @getBlock other event = Ok eventBlock →
       @queryFilter_TransactionBatchAppended other (Event.address event)
         (Block.number eventBlock) (Block.number eventBlock) = Ok found →
       @getExtraData other event = @getExtraData provider event).
Proof.
  intros Htx Hblock Hquery. split_and!.
  - intros extraData Hx. unfold getExtraData in Hx.
    rewrite Htx, Hblock in Hx. simpl in Hx. rewrite Hquery in Hx.
    simpl in Hx.
    destruct (List.find (is_companion event) found) as [companion|] eqn:Hfind;
      [|discriminate].
    injection Hx as <-. simpl.
    apply find_first in Hfind as (i & Hi & Hc & Hmin).
    apply is_companion_true in Hc as [Hhash Hlog].
    exists i, companion. split_and!; try done.
    intros j other Hj Hother. rewrite <- is_companion_true.
    rewrite (Hmin j other Hj Hother). done.
  - intros (companion & Hin & Hhash & Hlog). unfold getExtraData.
    rewrite Htx, Hblock. simpl. rewrite Hquery. simpl.
    destruct (List.find (is_companion event) found) as [c|] eqn:Hfind;
      [eauto |].
    apply list_elem_of_In in Hin.
    pose proof (find_none _ _ Hfind companion Hin) as Hnone.
    assert (is_companion event companion = true) by by apply is_companion_true.
    congruence.
  - intros Hnone.
    assert (getExtraData event = Throw (Error missing_companion_message))
      as Hthrow.
    { unfold getExtraData. rewrite Htx, Hblock. simpl. rewrite Hquery. simpl.
      destruct (List.find (is_companion event) found) as [c|] eqn:Hfind;
        [|done].
      apply find_some in Hfind as [Hin Hc].
      apply list_elem_of_In in Hin. apply is_companion_true in Hc.
      by destruct (Hnone c Hin). }
    split; [done |]. unfold handleEvent. by rewrite Hthrow.
  - intros other Htx' Hblock' Hquery'. unfold getExtraData.
    rewrite Htx, Hblock, Htx', Hblock'. simpl.
    by rewrite Hquery, Hquery'.
Qed.

End CompanionEvent.

(** ** Decoding an encoded calldata *)

Lemma byte_val_of_Z (z : Z) : 0 ≤ z < 256 → byte_val (byte_of_Z z) = z.
Proof.
  intros Hz. unfold byte_val, byte_of_Z.
  pose proof (Byte.to_of_N_option_map (Z.to_N z)) as Hmap.
  destruct (Byte.of_N (Z.to_N z)) as [b|]; simpl in *.
  - destruct (Z.to_N z <=? 255)%N eqn:Hle; [|discriminate].
    injection Hmap as ->. lia.
  - destruct (Z.to_N z <=? 255)%N eqn:Hle; [discriminate |].
    apply N.leb_gt in Hle. lia.
Qed.

Lemma be_bytes_length (k : nat) (n : Z) : length (be_bytes k n) = k.
Proof.
  revert n. induction k as [|k IH]; intros n; simpl; [done |].
  rewrite length_app, IH. simpl. lia.
Qed.

Lemma be_uint_be_bytes (k : nat) (n : Z) :
  0 ≤ n < 256 ^ Z.of_nat k → be_uint (be_bytes k n) = n.
Proof.
  revert n. induction k as [|k IH]; intros n Hn.
  - simpl in *. unfold be_uint. simpl. lia.
  - simpl be_bytes. rewrite be_uint_snoc.
    rewrite byte_val_of_Z by (apply Z.mod_pos_bound; lia).
    rewrite IH; [pose proof (Z.div_mod n 256); lia |].
    rewrite Nat2Z.inj_succ, Z.pow_succ_r in Hn by lia.
    split; [apply Z.div_pos; lia |].
    apply Z.div_lt_upper_bound; lia.
Qed.

#[local] Arguments be_bytes : simpl never.

(** A field written by the encoder is read back. *)
Lemma read_be_bytes (calldata a b : Buffer) (k : nat) (n start stop : Z) :
  calldata = a ++ be_bytes k n ++ b →
  (0 < k ≤ 5)%nat → 0 ≤ n < 256 ^ Z.of_nat k →
  start = Z.of_nat (length a) →
  stop = start + Z.of_nat k →
  BigNumber.from_bytes (slice calldata start stop) ≫= BigNumber.toNumber
  = Ok n.
Proof.
  intros -> Hk Hn Hstart ->.
  rewrite <- (be_bytes_length k n) at 2. rewrite slice_app by done.
  pose proof (be_bytes_length k n) as Hlen.
  destruct (be_bytes k n) as [|x xs] eqn:E; [simpl in Hlen; lia |].
  simpl. rewrite <- E, be_uint_be_bytes by done.
  apply toNumber_safe.
  assert (256 ^ Z.of_nat k ≤ 256 ^ 5) by (apply Z.pow_le_mono_r; lia).
  lia.
Qed.

Lemma encode_context_length (c : SequencerBatchContext.t) :
  length (encode_context c) = 16%nat.
Proof.
  unfold encode_context. by rewrite !length_app, !be_bytes_length.
Qed.

Lemma parse_encoded_context (a b : Buffer)
    (c : SequencerBatchContext.t) (offset : Z) :
  offset = Z.of_nat (length a) →
  0 ≤ SequencerBatchContext.numSequencedTransactions c < 2 ^ 24 →
  0 ≤ SequencerBatchContext.numSubsequentQueueTransactions c < 2 ^ 24 →
  0 ≤ SequencerBatchContext.timestamp c < 2 ^ 40 →
  0 ≤ SequencerBatchContext.blockNumber c < 2 ^ 40 →
  parseSequencerBatchContext (a ++ encode_context c ++ b) offset = Ok c.
Proof.
  intros Hoffset H1 H2 H3 H4.
  unfold parseSequencerBatchContext, encode_context.
  destruct c as [n1 n2 ts bn].
  cbn [SequencerBatchContext.numSequencedTransactions
       SequencerBatchContext.numSubsequentQueueTransactions
       SequencerBatchContext.timestamp
       SequencerBatchContext.blockNumber] in *.
  match goal with
  | |- context [slice ?cd offset _] => set (calldata := cd)
  end.
  assert (calldata
          = a ++ be_bytes 3 n1 ++ be_bytes 3 n2 ++ be_bytes 5 ts
              ++ be_bytes 5 bn ++ b) as Hcd
    by (unfold calldata; by rewrite <- !app_assoc).
  rewrite (read_be_bytes calldata a
             (be_bytes 3 n2 ++ be_bytes 5 ts ++ be_bytes 5 bn ++ b)
             3 n1 offset (offset + 3) Hcd);
    [| lia | done | done | lia].
  cbn [mbind result_bind].
  rewrite (read_be_bytes calldata (a ++ be_bytes 3 n1)
             (be_bytes 5 ts ++ be_bytes 5 bn ++ b) 3 n2
             (offset + 3) (offset + 6));
    [| by rewrite <- !app_assoc | lia | done
     | rewrite length_app, be_bytes_length; lia | lia].
  cbn [mbind result_bind].
  rewrite (read_be_bytes calldata (a ++ be_bytes 3 n1 ++ be_bytes 3 n2)
             (be_bytes 5 bn ++ b) 5 ts (offset + 6) (offset + 11));
    [| by rewrite <- !app_assoc | lia | done
     | rewrite !length_app, !be_bytes_length; lia | lia].
  cbn [mbind result_bind].
  rewrite (read_be_bytes calldata
             (a ++ be_bytes 3 n1 ++ be_bytes 3 n2 ++ be_bytes 5 ts) b 5
             bn (offset + 11) (offset + 16));
    [| by rewrite <- !app_assoc | lia | done
     | rewrite !length_app, !be_bytes_length; lia | lia].
  reflexivity.
Qed.

Lemma encode_transaction_length (tx : Buffer) :
  length (encode_transaction tx) = (3 + length tx)%nat.
Proof. unfold encode_transaction. by rewrite length_app, be_bytes_length. Qed.

Lemma encode_transactions_cons (tx : Buffer) (txs : list Buffer) :
  encode_transactions (tx :: txs)
  = encode_transaction tx ++ encode_transactions txs.
Proof. reflexivity. Qed.

Lemma encode_transactions_app (txs1 txs2 : list Buffer) :
  encode_transactions (txs1 ++ txs2)
  = encode_transactions txs1 ++ encode_transactions txs2.
Proof. unfold encode_transactions. by rewrite fmap_app, concat_app. Qed.

Lemma parse_encoded_transaction (a b tx : Buffer) (offset : Z) :
  offset = Z.of_nat (length a) →
  Z.of_nat (length tx) < 2 ^ 24 →
  parseSequencerBatchTransaction (a ++ encode_transaction tx ++ b) offset
  = Ok tx.
Proof.
  intros Hoffset Hlen.
  unfold parseSequencerBatchTransaction, encode_transaction.
  rewrite (read_be_bytes _ a (tx ++ b) 3 (Z.of_nat (length tx)) offset
             (offset + 3));
    [| by rewrite <- !app_assoc | lia | lia | done | lia].
  cbn [mbind result_bind]. f_equal.
  replace (a ++ (be_bytes 3 (Z.of_nat (length tx)) ++ tx) ++ b)
    with ((a ++ be_bytes 3 (Z.of_nat (length tx))) ++ tx ++ b)
    by (by rewrite <- !app_assoc).
  apply slice_app. rewrite length_app, be_bytes_length. lia.
Qed.

Lemma total_queued_cons (c : SequencerBatchContext.t)
    (contexts : list SequencerBatchContext.t) :
  total_queued (c :: contexts)
  = SequencerBatchContext.numSubsequentQueueTransactions c
    + total_queued contexts.
Proof. reflexivity. Qed.

Lemma fits_layout_totals (batch : Batch) :
  Forall fits_layout batch →
  0 ≤ total_elements batch.*1 ∧ 0 ≤ total_queued batch.*1.
Proof.
  induction 1 as [|b batch (Hs & _ & Hq & _) _ IH]; [done |].
  rewrite fmap_cons, total_elements_cons, total_queued_cons.
  unfold context_size. lia.
Qed.

Lemma from_number_toNumber (x : Z) :
  Z.abs x < MAX_SAFE →
  BigNumber.from_number x ≫= BigNumber.toNumber = Ok x.
Proof.
  intros Hx. rewrite from_number_safe by done. simpl.
  apply toNumber_safe. unfold MAX_SAFE in Hx. lia.
Qed.

Section ParseEventEncoded.
Context {codec : Codec} {ethers : Ethers}.
Variable event : BatchAppendedEvent.
Variable extraData : ExtraData.t.
Variable calldata : Buffer.
Hypothesis prev_nonneg : 0 ≤ ExtraData.prevTotalElements extraData.
Hypothesis start_nonneg :
  0 ≤ EventArgsSequencerBatchAppended._startingQueueIndex (Event.args event).
Hypothesis batchIndex_safe : Z.abs (ExtraData.batchIndex extraData) < 2 ^ 53.
Hypothesis gasLimit_safe : Z.abs (ExtraData.gasLimit extraData) < MAX_SAFE.

Lemma index_safe (k : Z) :
  0 ≤ k → ExtraData.prevTotalElements extraData + k + 1 < 2 ^ 53 →
  (i ← BigNumber.from_number k;
   BigNumber.toNumber (ExtraData.prevTotalElements extraData + i))
  = Ok (ExtraData.prevTotalElements extraData + k).
Proof using prev_nonneg.
  intros Hk Hlt. rewrite from_number_safe by (unfold MAX_SAFE; lia).
  simpl. apply toNumber_safe. lia.
Qed.

Lemma sequenced_body_encoded (c : SequencerBatchContext.t) (a b tx : Buffer)
    (j : Z) (st : Locals.t) :
  calldata = a ++ encode_transaction tx ++ b →
  Locals.nextTxPointer st = Z.of_nat (length a) →
  Z.of_nat (length tx) < 2 ^ 24 →
  0 ≤ SequencerBatchContext.timestamp c < 2 ^ 40 →
  0 ≤ SequencerBatchContext.blockNumber c < 2 ^ 40 →
  0 ≤ Locals.transactionIndex st →
  ExtraData.prevTotalElements extraData + Locals.transactionIndex st + 1
    < 2 ^ 53 →
  sequenced_body extraData calldata c j st =
    Ok {| Locals.transactionEntries :=
            Locals.transactionEntries st
            ++ [sequencer_entry extraData c (Locals.transactionIndex st) tx];
          Locals.transactionIndex := Locals.transactionIndex st + 1;
          Locals.enqueuedCount := Locals.enqueuedCount st;
          Locals.nextTxPointer :=
            Locals.nextTxPointer st + (3 + Z.of_nat (length tx)) |}.
Proof using prev_nonneg batchIndex_safe gasLimit_safe.
  intros -> Hptr Htx Hts Hbn Hk Hlt. unfold sequenced_body.
  rewrite parse_encoded_transaction by done. rewrite bind_Ok_ret.
  rewrite index_safe by done. rewrite ?bind_Ok_ret.
  rewrite toNumber_safe by done. rewrite ?bind_Ok_ret.
  rewrite !from_number_toNumber by (done || (unfold MAX_SAFE; lia)).
  reflexivity.
Qed.

Lemma queued_body_encoded (j : Z) (st : Locals.t) :
  0 ≤ Locals.transactionIndex st →
  ExtraData.prevTotalElements extraData + Locals.transactionIndex st + 1
    < 2 ^ 53 →
  0 ≤ Locals.enqueuedCount st →
  EventArgsSequencerBatchAppended._startingQueueIndex (Event.args event)
    + Locals.enqueuedCount st + 1 < 2 ^ 53 →
  queued_body event extraData j st =
    Ok {| Locals.transactionEntries :=
            Locals.transactionEntries st
            ++ [queue_entry event extraData (Locals.transactionIndex st)
                  (Locals.enqueuedCount st)];
          Locals.transactionIndex := Locals.transactionIndex st + 1;
          Locals.enqueuedCount := Locals.enqueuedCount st + 1;
          Locals.nextTxPointer := Locals.nextTxPointer st |}.
Proof using prev_nonneg start_nonneg batchIndex_safe.
  intros Hk Hlt Hq Hqlt. unfold queued_body.
  rewrite (from_number_safe (Locals.enqueuedCount st))
    by (unfold MAX_SAFE; lia).
  rewrite ?bind_Ok_ret.
  rewrite index_safe by done. rewrite ?bind_Ok_ret.
  rewrite (toNumber_safe (ExtraData.batchIndex extraData)) by done.
  rewrite ?bind_Ok_ret.
  rewrite !from_number_toNumber by (unfold MAX_SAFE; lia).
  rewrite ?bind_Ok_ret.
  rewrite toNumber_safe by lia. reflexivity.
Qed.

Lemma sequenced_loop_encoded (c : SequencerBatchContext.t) :
  0 ≤ SequencerBatchContext.timestamp c < 2 ^ 40 →
  0 ≤ SequencerBatchContext.blockNumber c < 2 ^ 40 →
  ∀ (txs : list Buffer) (a b : Buffer) (j : Z) (st : Locals.t),
    calldata = a ++ encode_transactions txs ++ b →
    Locals.nextTxPointer st = Z.of_nat (length a) →
    Forall (λ tx : Buffer, Z.of_nat (length tx) < 2 ^ 24) txs →
    0 ≤ Locals.transactionIndex st →
    ExtraData.prevTotalElements extraData + Locals.transactionIndex st
      + Z.of_nat (length txs) < 2 ^ 53 →
    for_loop (length txs) j (sequenced_body extraData calldata c) st =
      Ok {| Locals.transactionEntries :=
              Locals.transactionEntries st
              ++ sequencer_entries extraData c (Locals.transactionIndex st)
                   txs;
            Locals.transactionIndex :=
              Locals.transactionIndex st + Z.of_nat (length txs);
            Locals.enqueuedCount := Locals.enqueuedCount st;
            Locals.nextTxPointer :=
              Locals.nextTxPointer st
              + Z.of_nat (length (encode_transactions txs)) |}.
Proof using prev_nonneg batchIndex_safe gasLimit_safe.
  intros Hts Hbn txs.
  induction txs as [|tx txs IH]; intros a b j st Hcd Hptr Hall Hk Hlt.
  - destruct st. simpl. rewrite app_nil_r, !Z.add_0_r. reflexivity.
  - apply list.Forall_cons in Hall as [Htx Hall].
    rewrite encode_transactions_cons, <- app_assoc in Hcd.
    cbn [length] in Hlt |- *. cbn [for_loop].
    rewrite (sequenced_body_encoded c a _ tx j st Hcd) by (done || lia).
    rewrite ?bind_Ok_ret.
    rewrite (IH (a ++ encode_transaction tx) b); cbn [Locals.transactionEntries
      Locals.transactionIndex Locals.enqueuedCount Locals.nextTxPointer].
    + f_equal. f_equal.
      * by rewrite <- app_assoc.
      * lia.
      * rewrite encode_transactions_cons, length_app,
          encode_transaction_length. lia.
    + by rewrite <- app_assoc.
    + rewrite length_app, encode_transaction_length. lia.
    + done.
    + lia.
    + lia.
Qed.

Lemma queued_loop_encoded (n : nat) :
  ∀ (j : Z) (st : Locals.t),
    0 ≤ Locals.transactionIndex st →
    ExtraData.prevTotalElements extraData + Locals.transactionIndex st
      + Z.of_nat n < 2 ^ 53 →
    0 ≤ Locals.enqueuedCount st →
    EventArgsSequencerBatchAppended._startingQueueIndex (Event.args event)
      + Locals.enqueuedCount st + Z.of_nat n < 2 ^ 53 →
    for_loop n j (queued_body event extraData) st =
      Ok {| Locals.transactionEntries :=
              Locals.transactionEntries st
              ++ queue_entries event extraData (Locals.transactionIndex st)
                   (Locals.enqueuedCount st) n;
            Locals.transactionIndex :=
              Locals.transactionIndex st + Z.of_nat n;
            Locals.enqueuedCount := Locals.enqueuedCount st + Z.of_nat n;
            Locals.nextTxPointer := Locals.nextTxPointer st |}.
Proof using prev_nonneg start_nonneg batchIndex_safe.
  induction n as [|n IH]; intros j st Hk Hlt Hq Hqlt.
  - destruct st. simpl. rewrite app_nil_r, !Z.add_0_r. reflexivity.
  - cbn [for_loop].
    rewrite queued_body_encoded by (done || lia). rewrite ?bind_Ok_ret.
    rewrite IH; cbn [Locals.transactionEntries Locals.transactionIndex
      Locals.enqueuedCount Locals.nextTxPointer]; [| lia..].
    f_equal. f_equal.
    + by rewrite <- app_assoc.
    + lia.
    + lia.
Qed.

Lemma context_body_encoded (c : SequencerBatchContext.t) (txs : list Buffer)
    (p q a b : Buffer) (i : Z) (st : Locals.t) :
  fits_layout (c, txs) →
  calldata = p ++ encode_context c ++ q →
  15 + 16 * i = Z.of_nat (length p) →
  calldata = a ++ encode_transactions txs ++ b →
  Locals.nextTxPointer st = Z.of_nat (length a) →
  0 ≤ Locals.transactionIndex st →
  ExtraData.prevTotalElements extraData + Locals.transactionIndex st
    + context_size c < 2 ^ 53 →
  0 ≤ Locals.enqueuedCount st →
  EventArgsSequencerBatchAppended._startingQueueIndex (Event.args event)
    + Locals.enqueuedCount st
    + SequencerBatchContext.numSubsequentQueueTransactions c < 2 ^ 53 →
  context_body event extraData calldata i st =
    Ok {| Locals.transactionEntries :=
            Locals.transactionEntries st
            ++ context_entries event extraData (Locals.transactionIndex st)
                 (Locals.enqueuedCount st) (c, txs);
          Locals.transactionIndex :=
            Locals.transactionIndex st + Z.of_nat (length txs)
            + SequencerBatchContext.numSubsequentQueueTransactions c;
          Locals.enqueuedCount :=
            Locals.enqueuedCount st
            + SequencerBatchContext.numSubsequentQueueTransactions c;
          Locals.nextTxPointer :=
            Locals.nextTxPointer st
            + Z.of_nat (length (encode_transactions txs)) |}.
Proof using prev_nonneg start_nonneg batchIndex_safe gasLimit_safe.
  intros (Hs & Hslt & Hq & Hts & Hbn & Htxs) Hctx Hp Htx Hptr Hk Hlt Hn Hnlt.
  simpl in Hs, Hslt, Hq, Hts, Hbn, Htxs. unfold context_size in Hlt.
  unfold context_body, for_upto.
  assert (parseSequencerBatchContext calldata (15 + 16 * i) = Ok c) as ->.
  { rewrite Hctx. apply parse_encoded_context; [done | lia | done..]. }
  rewrite bind_Ok_ret, Hs, Nat2Z.id.
  rewrite (sequenced_loop_encoded c Hts Hbn txs a b) by (done || lia).
  rewrite bind_Ok_ret.
  rewrite queued_loop_encoded;
    cbn [Locals.transactionEntries Locals.transactionIndex
         Locals.enqueuedCount Locals.nextTxPointer]; [| lia..].
  unfold context_entries. cbn [fst snd].
  rewrite Z2Nat.id by lia. by rewrite <- app_assoc.
Qed.

Lemma context_loop_encoded (batch : Batch) :
  Forall fits_layout batch →
  ∀ (p q a b : Buffer) (i : Z) (st : Locals.t),
    calldata = p ++ concat (encode_context <$> batch.*1) ++ q →
    15 + 16 * i = Z.of_nat (length p) →
    calldata = a ++ encode_transactions (concat batch.*2) ++ b →
    Locals.nextTxPointer st = Z.of_nat (length a) →
    0 ≤ Locals.transactionIndex st →
    ExtraData.prevTotalElements extraData + Locals.transactionIndex st
      + total_elements batch.*1 < 2 ^ 53 →
    0 ≤ Locals.enqueuedCount st →
    EventArgsSequencerBatchAppended._startingQueueIndex (Event.args event)
      + Locals.enqueuedCount st + total_queued batch.*1 < 2 ^ 53 →
    ∃ st',
      for_loop (length batch) i (context_body event extraData calldata) st
      = Ok st'
      ∧ Locals.transactionEntries st' =
          Locals.transactionEntries st
          ++ batch_entries event extraData (Locals.transactionIndex st)
               (Locals.enqueuedCount st) batch.
Proof using prev_nonneg start_nonneg batchIndex_safe gasLimit_safe.
  induction 1 as [|[c txs] batch Hfits Hall IH];
    intros p q a b i st Hctx Hp Htx Hptr Hk Hlt Hn Hnlt.
  - exists st. simpl. by rewrite app_nil_r.
  - rewrite !fmap_cons in Hctx. rewrite fmap_cons in Htx.
    rewrite fmap_cons in Hlt. rewrite fmap_cons in Hnlt.
    cbn [fst snd] in *.
    rewrite total_elements_cons in Hlt. rewrite total_queued_cons in Hnlt.
    rewrite concat_cons in Hctx. rewrite concat_cons in Htx.
    rewrite encode_transactions_app in Htx.
    rewrite <- app_assoc in Hctx, Htx.
    destruct (fits_layout_totals batch Hall) as [Htot Hqtot].
    pose proof Hfits as (Hs & _ & Hq & _). simpl in Hs, Hq.
    unfold context_size in Hlt.
    cbn [length for_loop].
    rewrite (context_body_encoded c txs p _ a _ i st Hfits Hctx Hp Htx Hptr)
      by (done || (unfold context_size; lia)).
    rewrite bind_Ok_ret.
    edestruct (IH (p ++ encode_context c) q (a ++ encode_transactions txs) b
                 (i + 1)) as (st' & Hloop & Hentries); last first.
    + exists st'. split; [exact Hloop |].
      rewrite Hentries. cbn [Locals.transactionEntries
        Locals.transactionIndex Locals.enqueuedCount].
      simpl batch_entries. by rewrite <- app_assoc.
    + cbn [Locals.enqueuedCount]. lia.
    + cbn [Locals.enqueuedCount]. lia.
    + cbn [Locals.transactionIndex]. lia.
    + cbn [Locals.transactionIndex]. lia.
    + cbn [Locals.nextTxPointer]. rewrite length_app. lia.
    + by rewrite <- app_assoc.
    + rewrite length_app, encode_context_length. lia.
    + by rewrite <- app_assoc.
Qed.

End ParseEventEncoded.

Lemma encode_contexts_length (contexts : list SequencerBatchContext.t) :
  Z.of_nat (length (concat (encode_context <$> contexts)))
  = 16 * Z.of_nat (length contexts).
Proof.
  induction contexts as [|c contexts IH]; [done |].
  rewrite fmap_cons, concat_cons, length_app, encode_context_length.
  cbn [length]. lia.
Qed.

Lemma contexts_at_encoded (header trailer : Buffer) (batch : Batch) :
  length header = 12%nat →
  Z.of_nat (length batch) < 2 ^ 24 →
  Forall fits_layout batch →
  contexts_at (encode_calldata header batch trailer) batch.*1.
Proof.
  intros Hheader Hlen Hall. unfold encode_calldata. split.
  - rewrite length_fmap.
    pose proof (read_be_bytes _ header
      (concat (encode_context <$> batch.*1)
       ++ encode_transactions (concat batch.*2) ++ trailer)
      3 (Z.of_nat (length batch)) 12 15 eq_refl) as Hread.
    apply bind_Ok in Hread as (n & Hn & Hnum); [| lia..].
    apply toNumber_Ok in Hnum as [<- _]. exact Hn.
  - intros i c Hi.
    apply list_lookup_fmap_Some in Hi as (b & -> & Hi).
    pose proof (Forall_lookup_1 _ _ _ _ Hall Hi) as (Hs & Hslt & Hq & Hts & Hbn & _).
    set (before := concat (encode_context <$> (take i batch).*1)).
    set (after := concat (encode_context <$> (drop (S i) batch).*1)).
    assert (concat (encode_context <$> batch.*1)
            = before ++ encode_context b.1 ++ after) as ->.
    { rewrite <- (take_drop_middle batch i b Hi) at 1.
      by rewrite fmap_app, fmap_cons, fmap_app, fmap_cons, concat_app,
        concat_cons. }
    replace (header ++ be_bytes 3 (Z.of_nat (length batch))
               ++ (before ++ encode_context b.1 ++ after)
               ++ encode_transactions (concat batch.*2) ++ trailer)
      with ((header ++ be_bytes 3 (Z.of_nat (length batch)) ++ before)
              ++ encode_context b.1
              ++ (after ++ encode_transactions (concat batch.*2) ++ trailer))
      by (by rewrite <- !app_assoc).
    apply parse_encoded_context; [| lia | done..].
    rewrite !length_app, be_bytes_length, Hheader.
    unfold before.
    pose proof (encode_contexts_length (take i batch).*1) as Hbefore.
    rewrite length_fmap, length_take in Hbefore.
    apply lookup_lt_Some in Hi. lia.
Qed.

Lemma batch_entries_sequencer_data {codec : Codec} {ethers : Ethers}
    (event : BatchAppendedEvent) (extraData : ExtraData.t) (batch : Batch) :
  ∀ k q,
    TransactionEntry.data
      <$> sequencer_origin_entries (batch_entries event extraData k q batch)
    = toHexString <$> concat batch.*2.
Proof.
  assert (∀ c k txs,
            TransactionEntry.data
              <$> sequencer_origin_entries (sequencer_entries extraData c k txs)
            = toHexString <$> txs) as Hseq.
  { intros c k txs. revert k. unfold sequencer_origin_entries.
    induction txs as [|tx txs IH]; intros k; [done |].
    cbn [sequencer_entries]. rewrite filter_cons_True by done.
    rewrite !fmap_cons, IH. reflexivity. }
  assert (∀ k q n,
            sequencer_origin_entries (queue_entries event extraData k q n)
            = []) as Hqueue.
  { intros k q n. revert k q. unfold sequencer_origin_entries.
    induction n as [|n IH]; intros k q; [done |].
    cbn [queue_entries]. rewrite filter_cons_False by done. apply IH. }
  induction batch as [|b batch IH]; intros k q; [done |].
  rewrite fmap_cons, concat_cons, fmap_app. simpl batch_entries.
  unfold context_entries, sequencer_origin_entries.
  rewrite !list.filter_app, !fmap_app.
  fold (sequencer_origin_entries (sequencer_entries extraData b.1 k b.2)).
  rewrite Hseq.
  match goal with
  | |- context [filter _ (queue_entries ?ev ?ex ?k' ?q' ?n)] =>
    fold (sequencer_origin_entries (queue_entries ev ex k' q' n))
  end.
  rewrite Hqueue. simpl.
  match goal with
  | |- context [filter _ (batch_entries ?ev ?ex ?k' ?q' ?l)] =>
    fold (sequencer_origin_entries (batch_entries ev ex k' q' l))
  end.
  by rewrite IH, app_nil_r.
Qed.

(** C7: for a calldata laid out as the specification says (a 12-byte
    header, the number of contexts on 3 bytes at offset 12, the 16-byte
    context blocks from offset 15, then the length-prefixed transaction
    slices, then anything), the contexts read at [15 + 16 * i] are the
    encoded ones, [parseEvent] returns, each context's entries carry its
    fields, and the slices of the sequenced entries are, across all
    contexts and in order, the encoded slices. *)
Theorem parseEvent_layout {codec : Codec} {ethers : Ethers}
    (event : BatchAppendedEvent) (extraData : ExtraData.t)
    (header trailer : Buffer) (batch : Batch) :
  length header = 12%nat →
  Z.of_nat (length batch) < 2 ^ 24 →
  Forall fits_layout batch →
  fromHexString (ExtraData.l1TransactionData extraData)
    = encode_calldata header batch trailer →
  safe_numbers event extraData batch.*1 →
  read_contexts (encode_calldata header batch trailer) = Ok batch.*1
  ∧ ∃ r,
      parseEvent event extraData = Ok r
      ∧ ParsedEvent.transactionEntries r
        = batch_entries event extraData 0 0 batch
      ∧ TransactionEntry.data
          <$> sequencer_origin_entries (ParsedEvent.transactionEntries r)
        = toHexString <$> concat batch.*2.
Proof.
  intros Hheader Hlen Hall Hcd
    (Hprev & Htotal & Hstart & Hqueued & Hindex & Hsize & Hgas & Hbn & Hts).
  split; [by apply read_contexts_Ok, contexts_at_encoded |].
  destruct (fits_layout_totals batch Hall) as [Htot Hqtot].
  unfold parseEvent. rewrite Hcd.
  set (calldata := encode_calldata header batch trailer).
  rewrite (read_be_bytes calldata header
             (concat (encode_context <$> batch.*1)
              ++ encode_transactions (concat batch.*2) ++ trailer)
             3 (Z.of_nat (length batch)) 12 15 eq_refl) by lia.
  rewrite bind_Ok_ret. unfold for_upto. rewrite Nat2Z.id.
  edestruct (context_loop_encoded event extraData calldata
               Hprev Hstart Hindex Hgas batch Hall
               (header ++ be_bytes 3 (Z.of_nat (length batch)))
               (encode_transactions (concat batch.*2) ++ trailer)
               (header ++ be_bytes 3 (Z.of_nat (length batch))
                  ++ concat (encode_context <$> batch.*1))
               trailer 0)
    as (st & Hloop & Hentries); last first.
  - rewrite Hloop, bind_Ok_ret.
    rewrite (toNumber_safe (ExtraData.batchIndex extraData)) by done.
    rewrite bind_Ok_ret.
    rewrite (toNumber_safe (ExtraData.batchSize extraData)) by done.
    rewrite bind_Ok_ret.
    rewrite (toNumber_safe (ExtraData.prevTotalElements extraData)) by lia.
    rewrite bind_Ok_ret.
    rewrite !from_number_toNumber by done. rewrite !bind_Ok_ret.
    eexists. split; [reflexivity |].
    cbn [ParsedEvent.transactionEntries]. rewrite Hentries.
    cbn [Locals.transactionEntries Locals.transactionIndex
         Locals.enqueuedCount app].
    split; [done | apply batch_entries_sequencer_data].
  - cbn [Locals.enqueuedCount]. lia.
  - cbn [Locals.enqueuedCount]. lia.
  - cbn [Locals.transactionIndex]. lia.
  - cbn [Locals.transactionIndex]. lia.
  - cbn [Locals.nextTxPointer].
    rewrite !length_app, be_bytes_length, Hheader.
    pose proof (encode_contexts_length batch.*1) as Hctxs.
    rewrite length_fmap in Hctxs. lia.
  - unfold calldata, encode_calldata. by rewrite <- !app_assoc.
  - rewrite length_app, be_bytes_length, Hheader. lia.
  - unfold calldata, encode_calldata. by rewrite <- !app_assoc.
Qed.

(** * Examples on the sample inputs *)

(** The scenario of section 8 of the specification: one context with two
    sequenced and one queued transaction, [prevTotalElements = 10],
    [startingQueueIndex = 3]. *)
Example parseEvent_scenario :
  ∃ r,
    @parseEvent sample_codec sample_ethers sample_event
      (sample_extraData sample_calldata 3) = Ok r
    ∧ TransactionEntry.index <$> ParsedEvent.transactionEntries r
      = [10; 11; 12]
    ∧ TransactionEntry.queueOrigin <$> ParsedEvent.transactionEntries r
      = [sequencer; sequencer; l1]
    ∧ TransactionEntry.queueIndex <$> ParsedEvent.transactionEntries r
      = [None; None; Some 3]
    ∧ TransactionEntry.blockNumber <$> ParsedEvent.transactionEntries r
      = [5; 5; 0]
    ∧ TransactionEntry.timestamp <$> ParsedEvent.transactionEntries r
      = [100; 100; 0].
Proof. eexists. vm_compute. repeat split. Qed.

Lemma parseEvent_index_range_witness :
  @parseEvent sample_codec sample_ethers sample_event
    (sample_extraData sample_calldata 3) = Ok sample_parsed
  ∧ valid_calldata (sample_extraData sample_calldata 3)
  ∧ TransactionEntry.index <$> ParsedEvent.transactionEntries sample_parsed
    = seqZ 10 3
  ∧ NoDup
      (TransactionEntry.index <$> ParsedEvent.transactionEntries sample_parsed).
Proof.
  assert (@parseEvent sample_codec sample_ethers sample_event
            (sample_extraData sample_calldata 3) = Ok sample_parsed) as Hr
    by (vm_compute; reflexivity).
  assert (valid_calldata (sample_extraData sample_calldata 3)) as Hvalid
    by (exists [sample_context]; split; vm_compute; reflexivity).
  destruct (@parseEvent_index_range sample_codec sample_ethers sample_event
              (sample_extraData sample_calldata 3) sample_parsed Hr Hvalid)
    as (_ & _ & Hrange & Hnodup & _).
  split_and!; [exact Hr | exact Hvalid | exact Hrange | exact Hnodup].
Defined.

Lemma parseEvent_order_witness :
  @parseEvent sample_codec sample_ethers sample_event
    (sample_extraData sample_calldata 3) = Ok sample_parsed
  ∧ ∃ contexts blocks,
      read_contexts (fromHexString sample_calldata) = Ok contexts
      ∧ Forall2 context_block contexts blocks
      ∧ ParsedEvent.transactionEntries sample_parsed
        = concat ((λ b, b.1 ++ b.2) <$> blocks).
Proof.
  assert (@parseEvent sample_codec sample_ethers sample_event
            (sample_extraData sample_calldata 3) = Ok sample_parsed) as Hr
    by (vm_compute; reflexivity).
  split; [exact Hr |].
  exact (@parseEvent_order sample_codec sample_ethers sample_event
           (sample_extraData sample_calldata 3) sample_parsed Hr).
Defined.

Lemma validateBatchTransaction_EIP155_round_trip_witness :
  let d := sample_decoded "0xaa" "0xaa" 1 in
  (Signature.v (DecodedSequencerBatchTransaction.sig d) = 0
   ∨ Signature.v (DecodedSequencerBatchTransaction.sig d) = 1)
  ∧ (@validateBatchTransaction sample_ethers (Some "EIP155") (Some d)
     = Ok true
     ↔ ∃ recovered, @round_trip sample_ethers d recovered (Some recovered)).
Proof.
  simpl. split; [by right |].
  apply (@validateBatchTransaction_EIP155_round_trip sample_ethers
           (sample_decoded "0xaa" "0xaa" 1)).
  by right.
Defined.

Lemma validateBatchTransaction_rejects_witness :
  @TxType_EIP155 sample_codec ≠ @TxType_EthSign sample_codec
  ∧ @maybeDecodeSequencerBatchTransaction sample_codec sample_ethers [x01]
    = Decoding.mk None (Some "ETH_SIGN").
Proof.
  assert (@TxType_EIP155 sample_codec ≠ @TxType_EthSign sample_codec)
    as Hdistinct by (simpl; lia).
  split; [exact Hdistinct |].
  apply (@validateBatchTransaction_rejects sample_codec sample_ethers
           Hdistinct).
  reflexivity.
Defined.



Lemma validateBatchTransaction_null_decoded_witness :
  byte_val x00 = @TxType_EIP155 null_codec
  ∧ @eip155TxData_decode null_codec (toString_hex [x00]) = Ok None
  ∧ @validateBatchTransaction sample_ethers (Some "EIP155") None
    = Throw TypeError
  ∧ @maybeDecode_try null_codec sample_ethers [x00]
    = (Decoding.mk None (Some "EIP155"), Some TypeError).
Proof.
  destruct (@validateBatchTransaction_null_decoded null_codec sample_ethers
              "EIP155" x00 []) as (Hthrow & Hwrapped & _).
  split_and!; [reflexivity | reflexivity | exact Hthrow |].
  apply Hwrapped; reflexivity.
Defined.



Lemma parseEvent_queue_entries_witness :
  @parseEvent sample_codec sample_ethers sample_event
    (sample_extraData sample_calldata 3) = Ok sample_parsed
  ∧ (∀ (i : nat) e,
       queue_origin_entries (ParsedEvent.transactionEntries sample_parsed)
         !! i = Some e →
       e = provisional_entry (TransactionEntry.index e) 2 (3 + Z.of_nat i))
  ∧ storeEvent sample_parsed
    = putTransactionBatchEntries
        [ParsedEvent.transactionBatchEntry sample_parsed]
      :: putTransactionEntries (ParsedEvent.transactionEntries sample_parsed)
      :: [putTransactionIndexByQueueIndex (Some 3) 12].
Proof.
  assert (@parseEvent sample_codec sample_ethers sample_event
            (sample_extraData sample_calldata 3) = Ok sample_parsed) as Hr
    by (vm_compute; reflexivity).
  destruct (@parseEvent_queue_entries sample_codec sample_ethers sample_event
              (sample_extraData sample_calldata 3) sample_parsed Hr)
    as (Hqueue & _ & Hstore).
  split_and!; [exact Hr | exact Hqueue | exact Hstore].
Defined.

Lemma parseEvent_layout_witness :
  let header := replicate 12 x00 in
  let extraData := sample_extraData sample_calldata 3 in
  length header = 12%nat
  ∧ Z.of_nat (length sample_batch) < 2 ^ 24
  ∧ Forall fits_layout sample_batch
  ∧ fromHexString (ExtraData.l1TransactionData extraData)
    = encode_calldata header sample_batch []
  ∧ safe_numbers sample_event extraData sample_batch.*1
  ∧ read_contexts (encode_calldata header sample_batch [])
    = Ok sample_batch.*1
  ∧ ∃ r,
      @parseEvent sample_codec sample_ethers sample_event extraData = Ok r
      ∧ ParsedEvent.transactionEntries r
        = @batch_entries sample_codec sample_ethers sample_event extraData
            0 0 sample_batch
      ∧ TransactionEntry.data
          <$> sequencer_origin_entries (ParsedEvent.transactionEntries r)
        = toHexString <$> concat sample_batch.*2.
Proof.
  intros header extraData.
  assert (length header = 12%nat) as Hheader by reflexivity.
  assert (Z.of_nat (length sample_batch) < 2 ^ 24) as Hlen by reflexivity.
  assert (Forall fits_layout sample_batch) as Hfits.
  { apply Forall_singleton. unfold fits_layout. simpl.
    split_and!; try lia.
    apply list.Forall_cons; split; [simpl; lia |].
    apply Forall_singleton. simpl. lia. }
  assert (fromHexString (ExtraData.l1TransactionData extraData)
          = encode_calldata header sample_batch []) as Hcd
    by (vm_compute; reflexivity).
  assert (safe_numbers sample_event extraData sample_batch.*1) as Hsafe.
  { unfold safe_numbers.
    split_and!; vm_compute; (reflexivity || discriminate). }
  split_and!; [done.. |];
    apply (@parseEvent_layout sample_codec sample_ethers sample_event
             extraData header [] sample_batch Hheader Hlen Hfits Hcd Hsafe).
Defined.

Lemma getExtraData_companion_witness :
  let provider := sample_chain [sample_companion "0xabc" 2] in
  @getTransaction provider sample_event
    = Ok (L1Transaction.mk "0xsequencer" "0xabc" sample_calldata)
  ∧ @getBlock provider sample_event = Ok (Block.mk 11000000 1600000000)
  ∧ @queryFilter_TransactionBatchAppended provider "0xctc" 11000000 11000000
    = Ok [sample_companion "0xabc" 2]
  ∧ @getExtraData provider sample_event
    = Throw (Error missing_companion_message)
  ∧ @handleEvent sample_codec sample_ethers provider sample_event
    = ([], Some (Error missing_companion_message)).
Proof.
  intros provider.
  destruct (@getExtraData_companion sample_codec sample_ethers provider
              sample_event
              (L1Transaction.mk "0xsequencer" "0xabc" sample_calldata)
              (Block.mk 11000000 1600000000)
              [sample_companion "0xabc" 2]
              eq_refl eq_refl eq_refl)
    as (_ & _ & Hnone & _).
  split_and!; [reflexivity.. | |]; apply Hnone;
    intros companion Hin [_ Hlog];
    apply list_elem_of_singleton in Hin; subst companion; discriminate.
Defined.

(** The companion of the sample event, when the block has it. *)
Example getExtraData_sample :
  @getExtraData (sample_chain [sample_companion "0xdef" 3;
                               sample_companion "0xabc" 3])
    sample_event
  = Ok (sample_extraData sample_calldata 3).
Proof. vm_compute. reflexivity. Qed.

(** * Further properties of the handlers *)

(** ** The calldata helpers *)

Lemma slice_past_end (buf : Buffer) (start stop : Z) :
  Z.of_nat (length buf) ≤ start → slice buf start stop = [].
Proof.
  intros Hstart. unfold slice, clamp_index.
  rewrite (decide_False (P := start < 0)) by lia.
  rewrite (Z.min_r start) by lia.
  rewrite drop_ge by lia. apply take_nil.
Qed.

(** A context block is read exactly when its twelfth byte exists: the five
    bytes of the block number may be cut short by the end of the calldata,
    and anything shorter is an invalid-number error. *)
Theorem parseSequencerBatchContext_returns (calldata : Buffer) (offset : Z) :
  0 ≤ offset →
  (offset + 11 < Z.of_nat (length calldata) →
   parseSequencerBatchContext calldata offset =
     Ok {| SequencerBatchContext.numSequencedTransactions :=
             be_uint (slice calldata offset (offset + 3));
           SequencerBatchContext.numSubsequentQueueTransactions :=
             be_uint (slice calldata (offset + 3) (offset + 6));
           SequencerBatchContext.timestamp :=
             be_uint (slice calldata (offset + 6) (offset + 11));
           SequencerBatchContext.blockNumber :=
             be_uint (slice calldata (offset + 11) (offset + 16)) |})
  ∧ (Z.of_nat (length calldata) ≤ offset + 11 →
     parseSequencerBatchContext calldata offset
     = Throw InvalidBigNumberString).
Proof.
  intros Hoffset. unfold parseSequencerBatchContext. split.
  - intros Hlen. rewrite !read_field by lia. reflexivity.
  - intros Hlen.
    destruct (decide (offset < Z.of_nat (length calldata))) as [H0|H0];
      [rewrite (read_field calldata offset) by lia; rewrite bind_Ok_ret
      | by rewrite (slice_past_end calldata offset) by lia].
    destruct (decide (offset + 3 < Z.of_nat (length calldata))) as [H3|H3];
      [rewrite (read_field calldata (offset + 3)) by lia;
       rewrite bind_Ok_ret
      | by rewrite (slice_past_end calldata (offset + 3)) by lia].
    destruct (decide (offset + 6 < Z.of_nat (length calldata))) as [H6|H6];
      [rewrite (read_field calldata (offset + 6)) by lia;
       rewrite bind_Ok_ret
      | by rewrite (slice_past_end calldata (offset + 6)) by lia].
    by rewrite (slice_past_end calldata (offset + 11)) by lia.
Qed.

(** The fields of a context that was read fit 24, 24, 40 and 40 bits. *)
Theorem parseSequencerBatchContext_bounds (calldata : Buffer) (offset : Z)
    (c : SequencerBatchContext.t) :
  0 ≤ offset →
  parseSequencerBatchContext calldata offset = Ok c →
  0 ≤ SequencerBatchContext.numSequencedTransactions c < 2 ^ 24
  ∧ 0 ≤ SequencerBatchContext.numSubsequentQueueTransactions c < 2 ^ 24
  ∧ 0 ≤ SequencerBatchContext.timestamp c < 2 ^ 40
  ∧ 0 ≤ SequencerBatchContext.blockNumber c < 2 ^ 40.
Proof.
  intros Hoffset Hc. unfold parseSequencerBatchContext in Hc.
  inv_bind Hc. inv_num. subst. simpl.
  assert (∀ start k, 0 ≤ start → 0 ≤ k ≤ 5 →
            0 ≤ be_uint (slice calldata start (start + k)) < 256 ^ k)
    as Hfield.
  { intros start k Hstart Hk.
    pose proof (be_uint_nonneg (slice calldata start (start + k))).
    pose proof (be_uint_bound (slice calldata start (start + k))).
    pose proof (slice_length calldata start (start + k) Hstart ltac:(lia)).
    assert (256 ^ Z.of_nat (length (slice calldata start (start + k)))
            ≤ 256 ^ k) by (apply Z.pow_le_mono_r; lia).
    lia. }
  pose proof (Hfield offset 3 ltac:(lia) ltac:(lia)) as F1.
  pose proof (Hfield (offset + 3) 3 ltac:(lia) ltac:(lia)) as F2.
  pose proof (Hfield (offset + 6) 5 ltac:(lia) ltac:(lia)) as F3.
  pose proof (Hfield (offset + 11) 5 ltac:(lia) ltac:(lia)) as F4.
  replace (offset + 3 + 3) with (offset + 6) in F2 by lia.
  replace (offset + 6 + 5) with (offset + 11) in F3 by lia.
  replace (offset + 11 + 5) with (offset + 16) in F4 by lia.
  lia.
Qed.

(** A transaction slice is read exactly when the first byte of its length
    exists; it holds the announced bytes, or the remaining ones when there
    are fewer. *)
Theorem parseSequencerBatchTransaction_returns
    (calldata : Buffer) (offset : Z) :
  0 ≤ offset →
  let transactionLength := be_uint (slice calldata offset (offset + 3)) in
  let remaining := drop (Z.to_nat (offset + 3)) calldata in
  (offset < Z.of_nat (length calldata) →
   parseSequencerBatchTransaction calldata offset
     = Ok (take (Z.to_nat transactionLength) remaining)
   ∧ Z.of_nat (length (take (Z.to_nat transactionLength) remaining))
     = Z.min transactionLength (Z.of_nat (length remaining)))
  ∧ (Z.of_nat (length calldata) ≤ offset →
     parseSequencerBatchTransaction calldata offset
     = Throw InvalidBigNumberString).
Proof.
  intros Hoffset transactionLength remaining.
  unfold parseSequencerBatchTransaction. split.
  - intros Hlen. rewrite read_field by lia. rewrite bind_Ok_ret.
    fold transactionLength.
    pose proof (be_uint_nonneg (slice calldata offset (offset + 3))) as H0.
    fold transactionLength in H0.
    rewrite slice_take_drop by lia. fold remaining.
    replace (offset + 3 + transactionLength - (offset + 3))
      with transactionLength by lia.
    split; [done |]. rewrite length_take. lia.
  - intros Hlen. by rewrite slice_past_end by lia.
Qed.

(** ** The validator and the wrapper, on every input *)

Section ValidatorOutcomes.
Context {codec : Codec} {ethers : Ethers}.

Lemma validate_EIP155_throws (d : DecodedSequencerBatchTransaction.t)
    (e : exn) :
  Signature.v (DecodedSequencerBatchTransaction.sig d) = 0
  ∨ Signature.v (DecodedSequencerBatchTransaction.sig d) = 1 →
  validateBatchTransaction (Some "EIP155") (Some d) = Throw e
  ↔ utility_throws d e.
Proof.
  intros Hv. rewrite (validate_EIP155_unfold d Hv). unfold utility_throws.
  split.
  - intros Hthrow.
    apply bind_Throw in Hthrow as [? | (rawTx & Hraw & Hthrow)]; [by left |].
    right. exists rawTx. split; [done |].
    apply bind_Throw in Hthrow as [? | (msgHash & Hhash & Hthrow)];
      [by left |].
    right. exists msgHash. split; [done |].
    apply bind_Throw in Hthrow as [? | (recovered & Hrec & Hthrow)];
      [by left |].
    right. exists recovered. split; [done |].
    apply bind_Throw in Hthrow as [? | (parsedTx & _ & ?)]; done.
  - intros [Hraw | (rawTx & Hraw & [Hhash | (msgHash & Hhash
              & [Hrec | (recovered & Hrec & Hparse)])])];
      rewrite Hraw; simpl; [done | | |].
    + by rewrite Hhash.
    + rewrite Hhash; simpl. by rewrite Hrec.
    + rewrite Hhash; simpl. rewrite Hrec; simpl. by rewrite Hparse.
Qed.

(** The validator accepts only a decoded transaction of type ['EIP155']
    whose [v] is 0 or 1 and whose round trip succeeds with equal
    addresses: no other type tag, known or unknown, is ever accepted. *)
Theorem validateBatchTransaction_accept_inv (type : option string)
    (decoded : option DecodedSequencerBatchTransaction.t) :
  validateBatchTransaction type decoded = Ok true →
  type = Some "EIP155"
  ∧ ∃ d,
      decoded = Some d
      ∧ (Signature.v (DecodedSequencerBatchTransaction.sig d) = 0
         ∨ Signature.v (DecodedSequencerBatchTransaction.sig d) = 1)
      ∧ ∃ recovered, round_trip d recovered (Some recovered).
Proof.
  intros Hok.
  destruct type as [ty|]; [|discriminate].
  destruct decoded as [d|]; [|discriminate].
  assert (Signature.v (DecodedSequencerBatchTransaction.sig d) = 0
          ∨ Signature.v (DecodedSequencerBatchTransaction.sig d) = 1) as Hv.
  { unfold validateBatchTransaction in Hok.
    destruct (decide _) as [|Hn] in Hok; [discriminate |]. lia. }
  assert (ty = "EIP155") as ->.
  { unfold validateBatchTransaction in Hok.
    destruct (decide (_ ∧ _)) in Hok; [discriminate |].
    destruct (decide (ty = "EIP155")) in Hok; [done | discriminate]. }
  split; [done |]. exists d. split_and!; [done.. |].
  rewrite (validate_EIP155_unfold d Hv) in Hok. unfold round_trip.
  inv_bind Hok. injection Hok as Hok. apply bool_decide_eq_true in Hok.
  eauto 10.
Qed.

(** The validator raises an exception in two cases only: a type that is not
    null with a null decoded transaction (a TypeError), and an ['EIP155']
    transaction with [v] in [{0, 1}] on which a signing utility raises (the
    exception of the utility). For every other input it returns. *)
Theorem validateBatchTransaction_throw_inv (type : option string)
    (decoded : option DecodedSequencerBatchTransaction.t) (e : exn) :
  validateBatchTransaction type decoded = Throw e ↔
  (type ≠ None ∧ decoded = None ∧ e = TypeError)
  ∨ (type = Some "EIP155"
     ∧ ∃ d,
         decoded = Some d
         ∧ (Signature.v (DecodedSequencerBatchTransaction.sig d) = 0
            ∨ Signature.v (DecodedSequencerBatchTransaction.sig d) = 1)
         ∧ utility_throws d e).
Proof.
  destruct type as [ty|].
  2:{ split; [discriminate |]. intros [(? & _) | (? & _)]; done. }
  destruct decoded as [d|].
  2:{ simpl. split.
      - intros [= <-]. by left.
      - intros [(_ & _ & ->) | (_ & ? & ? & _)]; done. }
  destruct (decide (Signature.v (DecodedSequencerBatchTransaction.sig d) = 0
                    ∨ Signature.v (DecodedSequencerBatchTransaction.sig d) = 1))
    as [Hv|Hv].
  - destruct (decide (ty = "EIP155")) as [->|Hty].
    + rewrite (validate_EIP155_throws d e Hv). split.
      * intros Hthrow. right. split; [done |]. exists d. done.
      * intros [(_ & ? & _) | (_ & d' & [= <-] & _ & Hthrow)]; done.
    + unfold validateBatchTransaction.
      rewrite decide_False by lia. rewrite (decide_False (P := ty = _)) by done.
      split; [discriminate |].
      intros [(_ & ? & _) | ([= ->] & _)]; done.
  - unfold validateBatchTransaction. rewrite decide_True by lia.
    split; [discriminate |].
    intros [(_ & ? & _) | (_ & d' & [= <-] & Hv' & _)]; done.
Qed.

Lemma maybeDecode_shape (transaction : Buffer) :
  let r := maybeDecodeSequencerBatchTransaction transaction in
  (Decoding.type r = None → Decoding.decoded r = None)
  ∧ (Decoding.decoded r ≠ None → Decoding.type r = Some "EIP155")
  ∧ (Decoding.type r = None ∨ Decoding.type r = Some "EIP155"
     ∨ Decoding.type r = Some "ETH_SIGN").
Proof.
  unfold maybeDecodeSequencerBatchTransaction, maybeDecode_try.
  assert (∀ (decoded : option DecodedSequencerBatchTransaction.t) ty,
            (decoded = None ∨ ty = Some "EIP155") →
            (ty = None → decoded = None) →
            (ty = None ∨ ty = Some "EIP155" ∨ ty = Some "ETH_SIGN") →
            (ty = None → decoded = None)
            ∧ (decoded ≠ None → ty = Some "EIP155")
            ∧ (ty = None ∨ ty = Some "EIP155" ∨ ty = Some "ETH_SIGN"))
    as Hshape.
  { intros decoded ty [-> | ->] Hnull Htag; split_and!; done. }
  destruct (readUInt8 _) as [txType|e]; [|apply Hshape; auto].
  destruct (decide (txType = TxType_EIP155)) as [Hmarker|Hmarker].
  - destruct (eip155TxData_decode _) as [d|e]; [|apply Hshape; auto; done].
    unfold validate_decoded.
    destruct (validateBatchTransaction _ d) as [[|]|e];
      apply Hshape; auto; done.
  - destruct (decide (txType = TxType_EthSign)) as [Hsign|Hsign];
      [|apply Hshape; auto].
    destruct (ethSignTxData_decode _) as [d|e]; [|apply Hshape; auto; done].
    rewrite validate_decoded_ETH_SIGN. apply Hshape; auto; done.
Qed.

(** The payload and the type tag that the wrapper returns are tied: a null
    type has a null payload, a payload that is not null has type
    ['EIP155'], and the type is null, ['EIP155'] or ['ETH_SIGN']. *)
Theorem maybeDecode_type_and_payload (transaction : Buffer) :
  let r := maybeDecodeSequencerBatchTransaction transaction in
  (Decoding.type r = None → Decoding.decoded r = None)
  ∧ (Decoding.decoded r ≠ None → Decoding.type r = Some "EIP155")
  ∧ (Decoding.type r = None ∨ Decoding.type r = Some "EIP155"
     ∨ Decoding.type r = Some "ETH_SIGN").
Proof. exact (maybeDecode_shape transaction). Qed.

(** The wrapper returns a payload exactly for a slice with the EIP155 marker
    that the decoder decodes and on which the validator does not return
    false: it accepts, or it raises. *)
Theorem maybeDecode_payload_iff (transaction : Buffer)
    (d : DecodedSequencerBatchTransaction.t) :
  Decoding.decoded (maybeDecodeSequencerBatchTransaction transaction)
    = Some d
  ↔ ∃ b rest,
      transaction = b :: rest
      ∧ byte_val b = TxType_EIP155
      ∧ eip155TxData_decode (toString_hex transaction) = Ok (Some d)
      ∧ validateBatchTransaction (Some "EIP155") (Some d) ≠ Ok false.
Proof.
  unfold maybeDecodeSequencerBatchTransaction. split.
  - destruct transaction as [|b rest]; [discriminate |].
    destruct (decide (byte_val b = TxType_EIP155)) as [Hb|Hb].
    + rewrite maybeDecode_try_EIP155 by done.
      destruct (eip155TxData_decode _) as [d'|e] eqn:Hd; [|discriminate].
      unfold validate_decoded.
      destruct (validateBatchTransaction _ d') as [[|]|e] eqn:Hv;
        cbn [fst Decoding.decoded];
        [| discriminate |]; intros ->; exists b, rest;
        split_and!; try done; rewrite Hv; discriminate.
    + destruct (decide (byte_val b = TxType_EthSign)) as [Hs|Hs].
      * rewrite maybeDecode_try_ETH_SIGN by done.
        destruct (ethSignTxData_decode _) as [d'|e]; [|discriminate].
        by rewrite validate_decoded_ETH_SIGN.
      * by rewrite maybeDecode_try_unknown.
  - intros (b & rest & -> & Hb & Hd & Hv).
    rewrite maybeDecode_try_EIP155 by done. rewrite Hd.
    unfold validate_decoded.
    by destruct (validateBatchTransaction _ _) as [[|]|e].
Qed.

(** When a signing utility raises on a decoded ['EIP155'] transaction with
    [v] in [{0, 1}], the [catch] clause swallows the exception after
    [decoded] was assigned: the wrapper returns the payload, as for an
    accepted transaction. *)
Theorem maybeDecode_keeps_payload_on_throw (b : byte) (rest : Buffer)
    (d : DecodedSequencerBatchTransaction.t) (e : exn) :
  byte_val b = TxType_EIP155 →
  eip155TxData_decode (toString_hex (b :: rest)) = Ok (Some d) →
  Signature.v (DecodedSequencerBatchTransaction.sig d) = 0
  ∨ Signature.v (DecodedSequencerBatchTransaction.sig d) = 1 →
  utility_throws d e →
  maybeDecode_try (b :: rest)
    = (Decoding.mk (Some d) (Some "EIP155"), Some e)
  ∧ maybeDecodeSequencerBatchTransaction (b :: rest)
    = Decoding.mk (Some d) (Some "EIP155").
Proof.
  intros Hb Hd Hv Hthrow.
  apply (validate_EIP155_throws d e Hv) in Hthrow.
  unfold maybeDecodeSequencerBatchTransaction.
  rewrite maybeDecode_try_EIP155 by done. rewrite Hd.
  unfold validate_decoded. by rewrite Hthrow.
Qed.

End ValidatorOutcomes.

(** ** [parseEvent]: when it returns, and with what *)

Section ParseEventOutcomes.
Context {codec : Codec} {ethers : Ethers}.

(** A settlement payload of 12 bytes or fewer has no context count:
    [parseEvent] fails with the invalid-number error of [BigNumber.from],
    whatever the metadata. *)
Theorem parseEvent_short_calldata (event : BatchAppendedEvent)
    (extraData : ExtraData.t) :
  Z.of_nat (length (fromHexString (ExtraData.l1TransactionData extraData)))
    ≤ 12 →
  parseEvent event extraData = Throw InvalidBigNumberString.
Proof.
  intros Hlen. unfold parseEvent. by rewrite slice_past_end by lia.
Qed.

Lemma parseEvent_metadata (event : BatchAppendedEvent)
    (extraData : ExtraData.t) (r : ParsedEvent.t) :
  parseEvent event extraData = Ok r →
  (Z.abs (ExtraData.batchIndex extraData) < 2 ^ 53
   ∧ Z.abs (ExtraData.batchSize extraData) < 2 ^ 53
   ∧ Z.abs (ExtraData.prevTotalElements extraData) < 2 ^ 53
   ∧ Z.abs (ExtraData.blockNumber extraData) < MAX_SAFE
   ∧ Z.abs (ExtraData.timestamp extraData) < MAX_SAFE)
  ∧ ParsedEvent.transactionBatchEntry r =
      {| TransactionBatchEntry.index := ExtraData.batchIndex extraData;
         TransactionBatchEntry.root := ExtraData.batchRoot extraData;
         TransactionBatchEntry.size := ExtraData.batchSize extraData;
         TransactionBatchEntry.prevTotalElements :=
           ExtraData.prevTotalElements extraData;
         TransactionBatchEntry.extraData :=
           ExtraData.batchExtraData extraData;
         TransactionBatchEntry.blockNumber := ExtraData.blockNumber extraData;
         TransactionBatchEntry.timestamp := ExtraData.timestamp extraData;
         TransactionBatchEntry.submitter := ExtraData.submitter extraData;
         TransactionBatchEntry.l1TransactionHash :=
           ExtraData.l1TransactionHash extraData |}.
Proof.
  intros Hr. unfold parseEvent in Hr.
  apply bind_Ok in Hr as (numContexts & _ & Hr).
  apply bind_Ok in Hr as (st & _ & Hr).
  inv_bind Hr. inv_num. subst. simpl. done.
Qed.

(** [parseEvent] returns only for metadata that fits a JavaScript integer
    (batch index, batch size and element offset below [2 ^ 53] in absolute
    value, block number and timestamp below [2 ^ 53 - 1]), and the batch
    entry it returns is a copy of the metadata: nothing in it comes from
    the calldata. *)
Theorem parseEvent_batch_entry (event : BatchAppendedEvent)
    (extraData : ExtraData.t) (r : ParsedEvent.t) :
  parseEvent event extraData = Ok r →
  (Z.abs (ExtraData.batchIndex extraData) < 2 ^ 53
   ∧ Z.abs (ExtraData.batchSize extraData) < 2 ^ 53
   ∧ Z.abs (ExtraData.prevTotalElements extraData) < 2 ^ 53
   ∧ Z.abs (ExtraData.blockNumber extraData) < MAX_SAFE
   ∧ Z.abs (ExtraData.timestamp extraData) < MAX_SAFE)
  ∧ ParsedEvent.transactionBatchEntry r =
      {| TransactionBatchEntry.index := ExtraData.batchIndex extraData;
         TransactionBatchEntry.root := ExtraData.batchRoot extraData;
         TransactionBatchEntry.size := ExtraData.batchSize extraData;
         TransactionBatchEntry.prevTotalElements :=
           ExtraData.prevTotalElements extraData;
         TransactionBatchEntry.extraData :=
           ExtraData.batchExtraData extraData;
         TransactionBatchEntry.blockNumber := ExtraData.blockNumber extraData;
         TransactionBatchEntry.timestamp := ExtraData.timestamp extraData;
         TransactionBatchEntry.submitter := ExtraData.submitter extraData;
         TransactionBatchEntry.l1TransactionHash :=
           ExtraData.l1TransactionHash extraData |}.
Proof. apply parseEvent_metadata. Qed.

(** A calldata whose context count is zero gives a batch entry and no
    transaction entry, as soon as the metadata fits a JavaScript integer;
    the bytes after the count are not read. *)
Theorem parseEvent_no_context (event : BatchAppendedEvent)
    (extraData : ExtraData.t) :
  let calldata := fromHexString (ExtraData.l1TransactionData extraData) in
  12 < Z.of_nat (length calldata) →
  be_uint (slice calldata 12 15) = 0 →
  Z.abs (ExtraData.batchIndex extraData) < 2 ^ 53 →
  Z.abs (ExtraData.batchSize extraData) < 2 ^ 53 →
  Z.abs (ExtraData.prevTotalElements extraData) < 2 ^ 53 →
  Z.abs (ExtraData.blockNumber extraData) < MAX_SAFE →
  Z.abs (ExtraData.timestamp extraData) < MAX_SAFE →
  ∃ r,
    parseEvent event extraData = Ok r
    ∧ ParsedEvent.transactionEntries r = []
    ∧ storeEvent r
      = [putTransactionBatchEntries [ParsedEvent.transactionBatchEntry r];
         putTransactionEntries []].
Proof.
  intros calldata Hlen Hzero Hindex Hsize Hprev Hbn Hts.
  unfold parseEvent. fold calldata.
  rewrite read_field by lia. rewrite bind_Ok_ret, Hzero.
  unfold for_upto. simpl for_loop. rewrite bind_Ok_ret.
  rewrite !toNumber_safe by done. rewrite !bind_Ok_ret.
  rewrite !from_number_toNumber by done. rewrite !bind_Ok_ret.
  eexists. split; [reflexivity |]. split; reflexivity.
Qed.

Lemma batch_entries_Forall (P : TransactionEntry.t → Prop)
    (event : BatchAppendedEvent) (extraData : ExtraData.t) :
  (∀ c k tx, P (sequencer_entry extraData c k tx)) →
  (∀ k q, P (queue_entry event extraData k q)) →
  ∀ batch k q, Forall P (batch_entries event extraData k q batch).
Proof.
  intros Hseq Hqueue.
  assert (∀ c txs k, Forall P (sequencer_entries extraData c k txs)) as Hs.
  { intros c txs. induction txs as [|tx txs IH]; intros k;
      simpl; constructor; auto. }
  assert (∀ n k q, Forall P (queue_entries event extraData k q n)) as Hq.
  { induction n as [|n IH]; intros k q; simpl; constructor; auto. }
  induction batch as [|b batch IH]; intros k q; simpl; [constructor |].
  unfold context_entries. rewrite !Forall_app. auto.
Qed.

(** Every entry of [parseEvent] refers to the batch entry returned with it;
    its type and payload are tied as in the wrapper, and only an entry of
    queue origin [sequencer] can have a payload; an entry of queue origin
    [sequencer] has the fixed target, a null origin and the gas limit of
    the metadata. *)
Theorem parseEvent_entry_shape (event : BatchAppendedEvent)
    (extraData : ExtraData.t) (r : ParsedEvent.t) (e : TransactionEntry.t) :
  parseEvent event extraData = Ok r →
  e ∈ ParsedEvent.transactionEntries r →
  TransactionEntry.batchIndex e
    = TransactionBatchEntry.index (ParsedEvent.transactionBatchEntry r)
  ∧ (TransactionEntry.type e = None → TransactionEntry.decoded e = None)
  ∧ (TransactionEntry.decoded e ≠ None →
     TransactionEntry.queueOrigin e = sequencer
     ∧ TransactionEntry.type e = Some "EIP155")
  ∧ (TransactionEntry.queueOrigin e = sequencer →
     TransactionEntry.target e
       = "0x4200000000000000000000000000000000000005"
     ∧ TransactionEntry.origin e = None
     ∧ TransactionEntry.gasLimit e = ExtraData.gasLimit extraData).
Proof.
  intros Hr He.
  destruct (parseEvent_metadata event extraData r Hr) as [_ ->].
  apply parseEvent_Ok in Hr as (batch & _ & _ & Hentries & _).
  rewrite Hentries in He. revert e He. apply list.Forall_forall.
  apply batch_entries_Forall.
  - intros c k tx. simpl.
    destruct (maybeDecode_shape tx) as (Hnull & Hpayload & _).
    split_and!; auto.
  - intros k q. simpl. split_and!; done.
Qed.

End ParseEventOutcomes.

(** ** Counting the entries *)

Lemma total_sequenced_cons (c : SequencerBatchContext.t)
    (contexts : list SequencerBatchContext.t) :
  total_sequenced (c :: contexts)
  = SequencerBatchContext.numSequencedTransactions c
    + total_sequenced contexts.
Proof. reflexivity. Qed.

Lemma slices_match_totals (batch : Batch) :
  Forall slices_match batch →
  0 ≤ total_queued batch.*1
  ∧ Z.of_nat (length (concat batch.*2)) = total_sequenced batch.*1.
Proof.
  induction 1 as [|b batch [Hs Hq] _ [IHq IHs]]; [done |].
  rewrite !fmap_cons, total_queued_cons, total_sequenced_cons, concat_cons,
    length_app.
  lia.
Qed.

Section Counting.
Context {codec : Codec} {ethers : Ethers}.
Variable event : BatchAppendedEvent.
Variable extraData : ExtraData.t.

Lemma queue_entries_queueIndex (n : nat) :
  ∀ k q,
    TransactionEntry.queueIndex <$> queue_entries event extraData k q n
    = (λ i, Some (EventArgsSequencerBatchAppended._startingQueueIndex
                    (Event.args event) + i))
      <$> seqZ q (Z.of_nat n).
Proof.
  induction n as [|n IH]; intros k q; [done |].
  rewrite Nat2Z.inj_succ, seqZ_cons by lia.
  cbn [queue_entries]. rewrite !fmap_cons, IH.
  simpl. do 3 f_equal; lia.
Qed.

Lemma batch_entries_queueIndex (batch : Batch) :
  Forall slices_match batch →
  ∀ k q,
    TransactionEntry.queueIndex
      <$> queue_origin_entries (batch_entries event extraData k q batch)
    = (λ i, Some (EventArgsSequencerBatchAppended._startingQueueIndex
                    (Event.args event) + i))
      <$> seqZ q (total_queued batch.*1).
Proof.
  induction 1 as [|b batch [Hs Hq] Hall IH]; intros k q; [done |].
  destruct (slices_match_totals batch Hall) as [Htot _].
  rewrite fmap_cons, total_queued_cons.
  rewrite seqZ_app by lia. rewrite fmap_app.
  cbn [batch_entries]. unfold context_entries, queue_origin_entries.
  rewrite !list.filter_app, !fmap_app.
  fold (queue_origin_entries (sequencer_entries extraData b.1 k b.2)).
  rewrite sequencer_entries_queue_origin.
  match goal with
  | |- context [filter _ (queue_entries ?ev ?ex ?k' ?q' ?n)] =>
    fold (queue_origin_entries (queue_entries ev ex k' q' n))
  end.
  rewrite queue_entries_queue_origin, queue_entries_queueIndex.
  rewrite Z2Nat.id by done.
  match goal with
  | |- context [filter _ (batch_entries ?ev ?ex ?k' ?q' ?l)] =>
    fold (queue_origin_entries (batch_entries ev ex k' q' l))
  end.
  by rewrite IH.
Qed.

(** The queue indices of the entries of queue origin [l1] are the
    consecutive integers from [startingQueueIndex], as many as the contexts
    of the calldata announce queue transactions: within a batch no queue
    index is given twice, so [storeEvent] writes every reverse lookup
    once. *)
Theorem parseEvent_queue_indices (r : ParsedEvent.t)
    (contexts : list SequencerBatchContext.t) :
  parseEvent event extraData = Ok r →
  read_contexts (fromHexString (ExtraData.l1TransactionData extraData))
    = Ok contexts →
  let queueIndices :=
    TransactionEntry.queueIndex
      <$> queue_origin_entries (ParsedEvent.transactionEntries r) in
  queueIndices
    = (λ i, Some (EventArgsSequencerBatchAppended._startingQueueIndex
                    (Event.args event) + i))
      <$> seqZ 0 (total_queued contexts)
  ∧ NoDup queueIndices.
Proof using Type.
  intros Hr Hcontexts queueIndices. unfold queueIndices.
  apply parseEvent_Ok in Hr as (batch & Hat & Hall & -> & _).
  apply read_contexts_Ok in Hcontexts.
  rewrite (contexts_at_unique _ _ _ Hcontexts Hat).
  rewrite (batch_entries_queueIndex batch Hall 0 0).
  split; [done |].
  apply NoDup_fmap_2; [|apply NoDup_seqZ].
  intros i j Hij. injection Hij as Hij. lia.
Qed.

(** [parseEvent] returns as many entries as the contexts of the calldata
    announce, whatever the batch size of the metadata: as many of queue
    origin [sequencer] as sequenced transactions announced, as many of
    queue origin [l1] as queue transactions announced; [storeEvent] then
    makes two calls and one more for each announced queue transaction. *)
Theorem parseEvent_counts (r : ParsedEvent.t)
    (contexts : list SequencerBatchContext.t) :
  parseEvent event extraData = Ok r →
  read_contexts (fromHexString (ExtraData.l1TransactionData extraData))
    = Ok contexts →
  let entries := ParsedEvent.transactionEntries r in
  Z.of_nat (length entries) = total_elements contexts
  ∧ Z.of_nat (length (sequencer_origin_entries entries))
    = total_sequenced contexts
  ∧ Z.of_nat (length (queue_origin_entries entries))
    = total_queued contexts
  ∧ Z.of_nat (length (storeEvent r)) = 2 + total_queued contexts.
Proof using Type.
  intros Hr Hcontexts entries. unfold entries, storeEvent.
  rewrite store_queue_indices_spec. cbn [length]. rewrite length_fmap.
  apply parseEvent_Ok in Hr as (batch & Hat & Hall & -> & _).
  apply read_contexts_Ok in Hcontexts.
  rewrite (contexts_at_unique _ _ _ Hcontexts Hat).
  destruct (slices_match_totals batch Hall) as [Hq Hs].
  pose proof (total_elements_nonneg batch Hall) as Htot.
  assert (Z.of_nat (length (queue_origin_entries
                              (batch_entries event extraData 0 0 batch)))
          = total_queued batch.*1) as Hqueue.
  { rewrite <- (length_fmap TransactionEntry.queueIndex).
    rewrite (batch_entries_queueIndex batch Hall 0 0).
    rewrite length_fmap, length_seqZ. lia. }
  split_and!.
  - rewrite <- (length_fmap TransactionEntry.index).
    rewrite (batch_entries_index event extraData batch Hall 0 0).
    rewrite length_seqZ. lia.
  - rewrite <- (length_fmap TransactionEntry.data).
    rewrite batch_entries_sequencer_data, length_fmap. exact Hs.
  - exact Hqueue.
  - lia.
Qed.

End Counting.

(** ** Loops: invariants and bodies that agree *)

Lemma for_loop_invariant {S : Type} (Q : S → Prop)
    (body : Z → S → result S) :
  (∀ i st st', Q st → body i st = Ok st' → Q st') →
  ∀ n i st st', Q st → for_loop n i body st = Ok st' → Q st'.
Proof.
  intros Hbody. induction n as [|n IH]; intros i st st' HQ Hloop.
  - simpl in Hloop. by injection Hloop as <-.
  - simpl in Hloop. apply bind_Ok in Hloop as (st1 & Hst1 & Hloop).
    eapply IH; [|exact Hloop]. eapply Hbody; [exact HQ | exact Hst1].
Qed.

Lemma for_loop_ext {S : Type} (Q : S → Prop)
    (body1 body2 : Z → S → result S) :
  (∀ i st, 0 ≤ i → Q st → body1 i st = body2 i st) →
  (∀ i st st', 0 ≤ i → Q st → body1 i st = Ok st' → Q st') →
  ∀ n i st, 0 ≤ i → Q st → for_loop n i body1 st = for_loop n i body2 st.
Proof.
  intros Hext Hbody. induction n as [|n IH]; intros i st Hi HQ; [done |].
  simpl. rewrite <- (Hext i st Hi HQ).
  destruct (body1 i st) as [st1|e] eqn:Hst1; [|done].
  simpl. apply IH; [lia |]. by eapply Hbody.
Qed.

Lemma parseSequencerBatchTransaction_Ok_offset (calldata tx : Buffer)
    (offset : Z) :
  0 ≤ offset →
  parseSequencerBatchTransaction calldata offset = Ok tx →
  offset < Z.of_nat (length calldata).
Proof.
  intros Hoffset Htx.
  destruct (decide (offset < Z.of_nat (length calldata))) as [|Hge]; [done |].
  unfold parseSequencerBatchTransaction in Htx.
  by rewrite slice_past_end in Htx by lia.
Qed.

Lemma parseSequencerBatchContext_Ok_offset (calldata : Buffer)
    (c : SequencerBatchContext.t) (offset : Z) :
  0 ≤ offset →
  parseSequencerBatchContext calldata offset = Ok c →
  offset + 11 < Z.of_nat (length calldata).
Proof.
  intros Hoffset Hc.
  destruct (decide (offset + 11 < Z.of_nat (length calldata))) as [|Hge];
    [done |].
  unfold parseSequencerBatchContext in Hc. inv_bind Hc.
  match goal with
  | H : BigNumber.from_bytes (slice _ (offset + 11) _) = Ok _ |- _ =>
    by rewrite slice_past_end in H by lia
  end.
Qed.

(** ** How much calldata [parseEvent] needs *)

Section CalldataLength.
Context {codec : Codec} {ethers : Ethers}.
Variable event : BatchAppendedEvent.
Variable extraData : ExtraData.t.
Variable calldata : Buffer.
Variable start : Z.
Hypothesis start_nonneg : 0 ≤ start.

Lemma sequenced_count_push (entries : list TransactionEntry.t)
    (e : TransactionEntry.t) (k q p : Z) :
  sequenced_count (Locals.mk (entries ++ [e]) k q p)
  = Z.of_nat (length (sequencer_origin_entries entries))
    + (if decide (TransactionEntry.queueOrigin e = sequencer) then 1 else 0).
Proof using Type.
  unfold sequenced_count, sequencer_origin_entries.
  cbn [Locals.transactionEntries]. rewrite list.filter_app, length_app.
  destruct (decide (TransactionEntry.queueOrigin e = sequencer)).
  - rewrite filter_cons_True by done. simpl. lia.
  - rewrite filter_cons_False by done. simpl. lia.
Qed.

Lemma sequenced_body_cursor (c : SequencerBatchContext.t) (j : Z)
    (st st' : Locals.t) :
  cursor_invariant calldata start st →
  sequenced_body extraData calldata c j st = Ok st' →
  cursor_invariant calldata start st'.
Proof using start_nonneg.
  intros [Hptr Hlast] Hbody.
  apply sequenced_body_Ok in Hbody as (tx & Htx & ->).
  assert (0 ≤ sequenced_count st) by (unfold sequenced_count; lia).
  apply parseSequencerBatchTransaction_Ok_offset in Htx; [|lia].
  unfold cursor_invariant. cbn [Locals.nextTxPointer].
  rewrite sequenced_count_push. rewrite decide_True by done.
  fold (sequenced_count st). lia.
Qed.

Lemma queued_body_cursor (j : Z) (st st' : Locals.t) :
  cursor_invariant calldata start st →
  queued_body event extraData j st = Ok st' →
  cursor_invariant calldata start st'.
Proof using Type.
  intros [Hptr Hlast] Hbody.
  apply queued_body_Ok in Hbody as ->.
  unfold cursor_invariant. cbn [Locals.nextTxPointer].
  rewrite sequenced_count_push. rewrite decide_False by done.
  fold (sequenced_count st). rewrite Z.add_0_r. done.
Qed.

Lemma context_body_cursor (i : Z) (st st' : Locals.t) :
  cursor_invariant calldata start st →
  context_body event extraData calldata i st = Ok st' →
  cursor_invariant calldata start st'.
Proof using start_nonneg.
  intros HQ Hbody. unfold context_body, for_upto in Hbody.
  apply bind_Ok in Hbody as (c & _ & Hbody).
  apply bind_Ok in Hbody as (st1 & Hseq & Hqueue).
  eapply (for_loop_invariant (cursor_invariant calldata start));
    [| |exact Hqueue].
  - intros j s s'. apply queued_body_cursor.
  - eapply (for_loop_invariant (cursor_invariant calldata start));
      [| exact HQ |exact Hseq].
    intros j s s'. apply sequenced_body_cursor.
Qed.

End CalldataLength.

(** [parseEvent] returns only if the calldata holds the count, the first
    twelve bytes of every announced context block, and, after the blocks,
    three bytes for every announced sequenced transaction but the last and
    one byte for the last: a calldata that announces more than it holds
    makes the whole batch fail, with no partial list. *)
Theorem parseEvent_calldata_length {codec : Codec} {ethers : Ethers}
    (event : BatchAppendedEvent) (extraData : ExtraData.t)
    (r : ParsedEvent.t) (contexts : list SequencerBatchContext.t) :
  parseEvent event extraData = Ok r →
  let calldata := fromHexString (ExtraData.l1TransactionData extraData) in
  read_contexts calldata = Ok contexts →
  12 < Z.of_nat (length calldata)
  ∧ (contexts ≠ [] →
     16 * Z.of_nat (length contexts) + 10 < Z.of_nat (length calldata))
  ∧ (0 < total_sequenced contexts →
     15 + 16 * Z.of_nat (length contexts)
       + 3 * (total_sequenced contexts - 1)
     < Z.of_nat (length calldata)).
Proof.
  intros Hr calldata Hcontexts.
  apply read_contexts_Ok in Hcontexts. pose proof Hcontexts as [Hn Hctx].
  split_and!.
  - destruct (decide (12 < Z.of_nat (length calldata))) as [|Hge]; [done |].
    by rewrite slice_past_end in Hn by lia.
  - intros Hne.
    destruct (lookup_lt_is_Some_2 contexts (length contexts - 1))
      as [c Hc].
    { destruct contexts; [done | simpl; lia]. }
    apply Hctx in Hc.
    apply parseSequencerBatchContext_Ok_offset in Hc; lia.
  - intros Hpos.
    pose proof Hr as Hbatch.
    apply parseEvent_Ok in Hbatch as (batch & Hat & Hall & Hentries & _).
    fold calldata in Hat.
    pose proof (contexts_at_unique _ _ _ Hcontexts Hat) as ->.
    destruct (slices_match_totals batch Hall) as [_ Hs].
    unfold parseEvent in Hr. fold calldata in Hr.
    apply bind_Ok in Hr as (numContexts & Hnum & Hr).
    apply bind_Ok in Hr as (st & Hloop & Hr).
    inv_bind Hr. injection Hr as <-. cbn [ParsedEvent.transactionEntries]
      in Hentries.
    apply bind_Ok in Hnum as (n & Hn' & Hnum).
    apply toNumber_Ok in Hnum as [-> _].
    rewrite Hn in Hn'. injection Hn' as <-.
    unfold for_upto in Hloop.
    assert (cursor_invariant calldata
              (15 + 16 * Z.of_nat (length batch.*1)) st) as [_ Hlast].
    { eapply (for_loop_invariant
                (cursor_invariant calldata
                   (15 + 16 * Z.of_nat (length batch.*1))));
        [| |exact Hloop].
      - intros i s s'. apply context_body_cursor. lia.
      - unfold cursor_invariant, sequenced_count. simpl. lia. }
    assert (sequenced_count st = total_sequenced batch.*1) as Hcount.
    { unfold sequenced_count. rewrite Hentries.
      rewrite <- (length_fmap TransactionEntry.data).
      rewrite batch_entries_sequencer_data, length_fmap. exact Hs. }
    rewrite Hcount in Hlast. by apply Hlast.
Qed.

(** ** The twelve bytes before the context count *)

Lemma slice_app_header (h1 h2 rest : Buffer) (start stop : Z) :
  length h1 = length h2 →
  Z.of_nat (length h1) ≤ start →
  slice (h1 ++ rest) start stop = slice (h2 ++ rest) start stop.
Proof.
  intros Hlen Hstart. unfold slice. rewrite !length_app, <- Hlen.
  set (len := Z.of_nat (length h1 + length rest)).
  assert (Z.of_nat (length h1) ≤ clamp_index len start) as Hs.
  { unfold clamp_index, len. rewrite decide_False by lia. lia. }
  f_equal. rewrite !drop_app_ge by lia. by rewrite Hlen.
Qed.

Section Pointer.
Context {codec : Codec} {ethers : Ethers}.
Variable event : BatchAppendedEvent.

Lemma sequenced_body_pointer (ex : ExtraData.t) (calldata : Buffer)
    (c : SequencerBatchContext.t) (j : Z) (st st' : Locals.t) :
  12 ≤ Locals.nextTxPointer st →
  sequenced_body ex calldata c j st = Ok st' →
  12 ≤ Locals.nextTxPointer st'.
Proof using Type.
  intros Hptr Hbody. apply sequenced_body_Ok in Hbody as (tx & _ & ->).
  simpl. lia.
Qed.

Lemma queued_body_pointer (ex : ExtraData.t) (j : Z) (st st' : Locals.t) :
  12 ≤ Locals.nextTxPointer st →
  queued_body event ex j st = Ok st' →
  12 ≤ Locals.nextTxPointer st'.
Proof using Type.
  intros Hptr Hbody. by apply queued_body_Ok in Hbody as ->.
Qed.

Lemma context_body_pointer (ex : ExtraData.t) (calldata : Buffer) (i : Z)
    (st st' : Locals.t) :
  12 ≤ Locals.nextTxPointer st →
  context_body event ex calldata i st = Ok st' →
  12 ≤ Locals.nextTxPointer st'.
Proof using Type.
  intros Hptr Hbody. unfold context_body, for_upto in Hbody.
  apply bind_Ok in Hbody as (c & _ & Hbody).
  apply bind_Ok in Hbody as (st1 & Hseq & Hqueue).
  eapply (for_loop_invariant (λ s, 12 ≤ Locals.nextTxPointer s));
    [| |exact Hqueue].
  - intros j s s'. apply queued_body_pointer.
  - eapply (for_loop_invariant (λ s, 12 ≤ Locals.nextTxPointer s));
      [| exact Hptr |exact Hseq].
    intros j s s'. apply sequenced_body_pointer.
Qed.

End Pointer.

Section Header.
Context {codec : Codec} {ethers : Ethers}.
Variable event : BatchAppendedEvent.
Variable extraData : ExtraData.t.
Variable l1TransactionData : string.
Variables h1 h2 rest : Buffer.
Hypothesis h1_length : length h1 = 12%nat.
Hypothesis h2_length : length h2 = 12%nat.

Lemma parseSequencerBatchContext_header (offset : Z) :
  12 ≤ offset →
  parseSequencerBatchContext (h2 ++ rest) offset
  = parseSequencerBatchContext (h1 ++ rest) offset.
Proof using h1_length h2_length.
  intros Hoffset. unfold parseSequencerBatchContext.
  by rewrite !(slice_app_header h2 h1 rest) by (congruence || lia).
Qed.

Lemma parseSequencerBatchTransaction_header (offset : Z) :
  12 ≤ offset →
  parseSequencerBatchTransaction (h2 ++ rest) offset
  = parseSequencerBatchTransaction (h1 ++ rest) offset.
Proof using h1_length h2_length.
  intros Hoffset. unfold parseSequencerBatchTransaction.
  rewrite (slice_app_header h2 h1 rest offset) by (congruence || lia).
  destruct (BigNumber.from_bytes _ ≫= BigNumber.toNumber) as [n|e]; [|done].
  rewrite !bind_Ok_ret.
  by rewrite (slice_app_header h2 h1 rest (offset + 3))
    by (congruence || lia).
Qed.

Lemma sequenced_body_header (c : SequencerBatchContext.t) (j : Z)
    (st : Locals.t) :
  12 ≤ Locals.nextTxPointer st →
  sequenced_body (with_l1TransactionData extraData l1TransactionData)
    (h2 ++ rest) c j st
  = sequenced_body extraData (h1 ++ rest) c j st.
Proof using h1_length h2_length.
  intros Hptr. unfold sequenced_body.
  by rewrite parseSequencerBatchTransaction_header by done.
Qed.

Lemma context_body_header (i : Z) (st : Locals.t) :
  0 ≤ i →
  12 ≤ Locals.nextTxPointer st →
  context_body event (with_l1TransactionData extraData l1TransactionData)
    (h2 ++ rest) i st
  = context_body event extraData (h1 ++ rest) i st.
Proof using h1_length h2_length.
  intros Hi Hptr. unfold context_body.
  rewrite parseSequencerBatchContext_header by lia.
  destruct (parseSequencerBatchContext _ _) as [c|e]; [|done].
  rewrite !bind_Ok_ret. unfold for_upto.
  rewrite (for_loop_ext (λ s, 12 ≤ Locals.nextTxPointer s)
             (sequenced_body
                (with_l1TransactionData extraData l1TransactionData)
                (h2 ++ rest) c)
             (sequenced_body extraData (h1 ++ rest) c)); [done | | | lia | done].
  - intros j s _. apply sequenced_body_header.
  - intros j s s' _. apply sequenced_body_pointer.
Qed.

End Header.

(** [parseEvent] never reads the twelve bytes before the context count (the
    function selector and the two leading fields of the settlement call):
    two payloads that differ in them only give the same result, entries
    and failures alike. *)
Theorem parseEvent_ignores_header {codec : Codec} {ethers : Ethers}
    (event : BatchAppendedEvent) (extraData : ExtraData.t)
    (l1TransactionData : string) (h1 h2 rest : Buffer) :
  length h1 = 12%nat →
  length h2 = 12%nat →
  fromHexString (ExtraData.l1TransactionData extraData) = h1 ++ rest →
  fromHexString l1TransactionData = h2 ++ rest →
  parseEvent event (with_l1TransactionData extraData l1TransactionData)
  = parseEvent event extraData.
Proof.
  intros Hh1 Hh2 Hd1 Hd2. unfold parseEvent.
  cbn [with_l1TransactionData ExtraData.l1TransactionData].
  rewrite Hd1, Hd2.
  rewrite (slice_app_header h2 h1 rest 12 15) by (congruence || lia).
  destruct (BigNumber.from_bytes _ ≫= BigNumber.toNumber) as [n|e]; [|done].
  rewrite !bind_Ok_ret. unfold for_upto.
  destruct (decide (0 ≤ n)) as [Hn|Hn].
  - rewrite (for_loop_ext (λ s, 12 ≤ Locals.nextTxPointer s)
               (context_body event
                  (with_l1TransactionData extraData l1TransactionData)
                  (h2 ++ rest))
               (context_body event extraData (h1 ++ rest)));
      [done | | | lia | simpl; lia].
    + intros i s. by apply context_body_header.
    + intros i s s' _. apply context_body_pointer.
  - by rewrite Z2Nat.nonpos by lia.
Qed.

(** ** The resolver, then the decoder *)

Section ResolverOutcomes.
Context {codec : Codec} {ethers : Ethers} {provider : ChainProvider}.

Lemma getExtraData_Ok (event : BatchAppendedEvent) (extraData : ExtraData.t) :
  getExtraData event = Ok extraData →
  ∃ l1Transaction eventBlock found companion,
    getTransaction event = Ok l1Transaction
    ∧ getBlock event = Ok eventBlock
    ∧ queryFilter_TransactionBatchAppended (Event.address event)
        (Block.number eventBlock) (Block.number eventBlock) = Ok found
    ∧ List.find (is_companion event) found = Some companion
    ∧ extraData =
        {| ExtraData.timestamp := Block.timestamp eventBlock;
           ExtraData.blockNumber := Block.number eventBlock;
           ExtraData.submitter := L1Transaction.from l1Transaction;
           ExtraData.l1TransactionHash := L1Transaction.hash l1Transaction;
           ExtraData.l1TransactionData := L1Transaction.data l1Transaction;
           ExtraData.gasLimit := 8000000;
           ExtraData.prevTotalElements :=
             EventArgsTransactionBatchAppended._prevTotalElements
               (Event.args companion);
           ExtraData.batchIndex :=
             EventArgsTransactionBatchAppended._batchIndex
               (Event.args companion);
           ExtraData.batchSize :=
             EventArgsTransactionBatchAppended._batchSize
               (Event.args companion);
           ExtraData.batchRoot :=
             EventArgsTransactionBatchAppended._batchRoot
               (Event.args companion);
           ExtraData.batchExtraData :=
             EventArgsTransactionBatchAppended._extraData
               (Event.args companion) |}.
Proof.
  intros Hx. unfold getExtraData in Hx.
  apply bind_Ok in Hx as (l1Transaction & Htx & Hx).
  apply bind_Ok in Hx as (eventBlock & Hblock & Hx).
  apply bind_Ok in Hx as (found & Hquery & Hx).
  destruct (List.find (is_companion event) found) as [companion|] eqn:Hfind;
    [|discriminate].
  injection Hx as <-. exists l1Transaction, eventBlock, found, companion.
  done.
Qed.

(** The resolver fails in four ways, tried in this order: the lookup of the
    transaction fails, the lookup of the block fails, the query of the
    block's events fails (each with the exception of the chain node), or
    the query has no companion event (the fixed error message). *)
Theorem getExtraData_throw_inv (event : BatchAppendedEvent) (e : exn) :
  getExtraData event = Throw e ↔
  getTransaction event = Throw e
  ∨ ∃ l1Transaction,
      getTransaction event = Ok l1Transaction
      ∧ (getBlock event = Throw e
         ∨ ∃ eventBlock,
             getBlock event = Ok eventBlock
             ∧ (queryFilter_TransactionBatchAppended (Event.address event)
                  (Block.number eventBlock) (Block.number eventBlock)
                = Throw e
                ∨ ∃ found,
                    queryFilter_TransactionBatchAppended
                      (Event.address event)
                      (Block.number eventBlock) (Block.number eventBlock)
                    = Ok found
                    ∧ List.find (is_companion event) found = None
                    ∧ e = Error missing_companion_message)).
Proof.
  unfold getExtraData. split.
  - intros Hx.
    apply bind_Throw in Hx as [? | (l1Transaction & Htx & Hx)]; [by left |].
    right. exists l1Transaction. split; [done |].
    apply bind_Throw in Hx as [? | (eventBlock & Hblock & Hx)]; [by left |].
    right. exists eventBlock. split; [done |].
    apply bind_Throw in Hx as [? | (found & Hquery & Hx)]; [by left |].
    right. exists found. split; [done |].
    destruct (List.find (is_companion event) found) as [companion|];
      [discriminate |].
    by injection Hx as <-.
  - intros [Htx | (l1Transaction & Htx & [Hblock | (eventBlock & Hblock
              & [Hquery | (found & Hquery & Hfind & ->)])])];
      rewrite Htx; [done | rewrite bind_Ok_ret ..]; rewrite Hblock; [done | |];
      rewrite bind_Ok_ret, Hquery; [done |].
    rewrite bind_Ok_ret. by rewrite Hfind.
Qed.

(** What the decoder makes of the resolver's metadata: the batch entry
    carries the number and the timestamp of the block of the event and the
    sender and the hash of its transaction; the entries are decoded from the
    input data of that transaction; every entry of queue origin [sequencer]
    has the fixed gas limit 8000000 and every entry of queue origin [l1]
    the gas limit 0. *)
Theorem getExtraData_parseEvent (event : BatchAppendedEvent)
    (extraData : ExtraData.t) (r : ParsedEvent.t)
    (l1Transaction : L1Transaction.t) (eventBlock : Block.t) :
  getTransaction event = Ok l1Transaction →
  getBlock event = Ok eventBlock →
  getExtraData event = Ok extraData →
  parseEvent event extraData = Ok r →
  let b := ParsedEvent.transactionBatchEntry r in
  TransactionBatchEntry.blockNumber b = Block.number eventBlock
  ∧ TransactionBatchEntry.timestamp b = Block.timestamp eventBlock
  ∧ TransactionBatchEntry.submitter b = L1Transaction.from l1Transaction
  ∧ TransactionBatchEntry.l1TransactionHash b
    = L1Transaction.hash l1Transaction
  ∧ ExtraData.l1TransactionData extraData = L1Transaction.data l1Transaction
  ∧ Forall (λ e, TransactionEntry.gasLimit e
                 = match TransactionEntry.queueOrigin e with
                   | sequencer => 8000000
                   | l1 => 0
                   end)
      (ParsedEvent.transactionEntries r).
Proof.
  intros Htx Hblock Hx Hr b. unfold b.
  destruct (parseEvent_metadata event extraData r Hr) as [_ ->].
  apply parseEvent_Ok in Hr as (batch & _ & _ & -> & _).
  apply getExtraData_Ok in Hx
    as (l1Transaction' & eventBlock' & found & companion
        & Htx' & Hblock' & _ & _ & ->).
  rewrite Htx in Htx'. injection Htx' as <-.
  rewrite Hblock in Hblock'. injection Hblock' as <-.
  cbn [ParsedEvent.transactionEntries]. split_and!; try done.
  apply batch_entries_Forall.
  - intros c k tx. reflexivity.
  - intros k q. reflexivity.
Qed.

End ResolverOutcomes.

(** ** The further properties on the sample inputs *)

Lemma parseSequencerBatchContext_returns_witness :
  let calldata := fromHexString sample_calldata in
  0 ≤ 15
  ∧ 15 + 11 < Z.of_nat (length calldata)
  ∧ Z.of_nat (length calldata) ≤ 29 + 11
  ∧ parseSequencerBatchContext calldata 15 = Ok sample_context
  ∧ parseSequencerBatchContext calldata 29 = Throw InvalidBigNumberString.
Proof.
  intros calldata.
  assert (0 ≤ 15) as H15 by lia.
  assert (0 ≤ 29) as H29 by lia.
  assert (15 + 11 < Z.of_nat (length calldata)) as Hin
    by (vm_compute; reflexivity).
  assert (Z.of_nat (length calldata) ≤ 29 + 11) as Hout
    by (vm_compute; discriminate).
  split_and!; [exact H15 | exact Hin | exact Hout | |].
  - exact (proj1 (parseSequencerBatchContext_returns calldata 15 H15) Hin).
  - exact (proj2 (parseSequencerBatchContext_returns calldata 29 H29) Hout).
Defined.

Lemma parseSequencerBatchContext_bounds_witness :
  0 ≤ 15
  ∧ parseSequencerBatchContext (fromHexString sample_calldata) 15
    = Ok sample_context
  ∧ 0 ≤ SequencerBatchContext.numSequencedTransactions sample_context
      < 2 ^ 24
  ∧ 0 ≤ SequencerBatchContext.numSubsequentQueueTransactions sample_context
      < 2 ^ 24
  ∧ 0 ≤ SequencerBatchContext.timestamp sample_context < 2 ^ 40
  ∧ 0 ≤ SequencerBatchContext.blockNumber sample_context < 2 ^ 40.
Proof.
  assert (0 ≤ 15) as H15 by lia.
  assert (parseSequencerBatchContext (fromHexString sample_calldata) 15
          = Ok sample_context) as Hc by (vm_compute; reflexivity).
  split; [exact H15 |]. split; [exact Hc |].
  exact (parseSequencerBatchContext_bounds (fromHexString sample_calldata) 15
           sample_context H15 Hc).
Defined.

Lemma parseSequencerBatchTransaction_returns_witness :
  let calldata := fromHexString short_calldata in
  0 ≤ 31
  ∧ 31 < Z.of_nat (length calldata)
  ∧ Z.of_nat (length calldata) ≤ 36
  ∧ parseSequencerBatchTransaction calldata 31 = Ok [x07; xaa]
  ∧ parseSequencerBatchTransaction calldata 36
    = Throw InvalidBigNumberString.
Proof.
  intros calldata.
  assert (0 ≤ 31) as H31 by lia.
  assert (0 ≤ 36) as H36 by lia.
  assert (31 < Z.of_nat (length calldata)) as Hin
    by (vm_compute; reflexivity).
  assert (Z.of_nat (length calldata) ≤ 36) as Hout
    by (vm_compute; discriminate).
  split_and!; [exact H31 | exact Hin | exact Hout | |].
  - exact (proj1
             (proj1 (parseSequencerBatchTransaction_returns calldata 31 H31)
                Hin)).
  - exact (proj2 (parseSequencerBatchTransaction_returns calldata 36 H36)
             Hout).
Defined.

Lemma validateBatchTransaction_accept_inv_witness :
  let d := sample_decoded "0xaa" "0xaa" 1 in
  @validateBatchTransaction sample_ethers (Some "EIP155") (Some d) = Ok true
  ∧ ∃ recovered, @round_trip sample_ethers d recovered (Some recovered).
Proof.
  intros d.
  assert (@validateBatchTransaction sample_ethers (Some "EIP155") (Some d)
          = Ok true) as Hok by (vm_compute; reflexivity).
  split; [exact Hok |].
  destruct (@validateBatchTransaction_accept_inv sample_ethers
              (Some "EIP155") (Some d) Hok)
    as (_ & d' & Hd & _ & Htrip).
  injection Hd as <-. exact Htrip.
Defined.

Lemma maybeDecode_keeps_payload_on_throw_witness :
  let d := sample_decoded "0xaa" "0xaa" 1 in
  let e := LibraryError "invalid object key" in
  byte_val x00 = @TxType_EIP155 (constant_codec d)
  ∧ @eip155TxData_decode (constant_codec d) (toString_hex [x00])
    = Ok (Some d)
  ∧ @utility_throws refusing_ethers d e
  ∧ @maybeDecode_try (constant_codec d) refusing_ethers [x00]
    = (Decoding.mk (Some d) (Some "EIP155"), Some e)
  ∧ @maybeDecodeSequencerBatchTransaction (constant_codec d) refusing_ethers
      [x00]
    = Decoding.mk (Some d) (Some "EIP155").
Proof.
  intros d e.
  assert (@utility_throws refusing_ethers d e) as Hthrow
    by (left; reflexivity).
  split_and!; [reflexivity | reflexivity | exact Hthrow | |];
    apply (@maybeDecode_keeps_payload_on_throw (constant_codec d)
             refusing_ethers x00 [] d e eq_refl eq_refl
             (or_intror eq_refl) Hthrow).
Defined.

Lemma parseEvent_short_calldata_witness :
  Z.of_nat
    (length
       (fromHexString
          (ExtraData.l1TransactionData (sample_extraData "0x8829a1d3" 0))))
    ≤ 12
  ∧ @parseEvent sample_codec sample_ethers sample_event
      (sample_extraData "0x8829a1d3" 0)
    = Throw InvalidBigNumberString.
Proof.
  assert (Z.of_nat
            (length
               (fromHexString
                  (ExtraData.l1TransactionData
                     (sample_extraData "0x8829a1d3" 0))))
          ≤ 12) as Hlen by (vm_compute; discriminate).
  split; [exact Hlen |].
  exact (@parseEvent_short_calldata sample_codec sample_ethers sample_event
           (sample_extraData "0x8829a1d3" 0) Hlen).
Defined.

Lemma parseEvent_batch_entry_witness :
  @parseEvent sample_codec sample_ethers sample_event
    (sample_extraData sample_calldata 3) = Ok sample_parsed
  ∧ ParsedEvent.transactionBatchEntry sample_parsed
    = {| TransactionBatchEntry.index := 2;
         TransactionBatchEntry.root := "0xroot";
         TransactionBatchEntry.size := 3;
         TransactionBatchEntry.prevTotalElements := 10;
         TransactionBatchEntry.extraData := "0x";
         TransactionBatchEntry.blockNumber := 11000000;
         TransactionBatchEntry.timestamp := 1600000000;
         TransactionBatchEntry.submitter := "0xsequencer";
         TransactionBatchEntry.l1TransactionHash := "0xabc" |}.
Proof.
  assert (@parseEvent sample_codec sample_ethers sample_event
            (sample_extraData sample_calldata 3) = Ok sample_parsed) as Hr
    by (vm_compute; reflexivity).
  split; [exact Hr |].
  exact (proj2 (@parseEvent_batch_entry sample_codec sample_ethers
                  sample_event (sample_extraData sample_calldata 3)
                  sample_parsed Hr)).
Defined.

Lemma parseEvent_no_context_witness :
  let extraData := sample_extraData empty_calldata 0 in
  let calldata := fromHexString (ExtraData.l1TransactionData extraData) in
  12 < Z.of_nat (length calldata)
  ∧ be_uint (slice calldata 12 15) = 0
  ∧ ∃ r,
      @parseEvent sample_codec sample_ethers sample_event extraData = Ok r
      ∧ ParsedEvent.transactionEntries r = []
      ∧ storeEvent r
        = [putTransactionBatchEntries [ParsedEvent.transactionBatchEntry r];
           putTransactionEntries []].
Proof.
  intros extraData calldata.
  assert (12 < Z.of_nat (length calldata)) as Hlen
    by (vm_compute; reflexivity).
  assert (be_uint (slice calldata 12 15) = 0) as Hzero
    by (vm_compute; reflexivity).
  split; [exact Hlen |]. split; [exact Hzero |].
  apply (@parseEvent_no_context sample_codec sample_ethers sample_event
           extraData Hlen Hzero);
    vm_compute; reflexivity.
Defined.

Lemma parseEvent_entry_shape_witness :
  @parseEvent sample_codec sample_ethers sample_event
    (sample_extraData sample_calldata 3) = Ok sample_parsed
  ∧ sample_entry ∈ ParsedEvent.transactionEntries sample_parsed
  ∧ TransactionEntry.batchIndex sample_entry
    = TransactionBatchEntry.index
        (ParsedEvent.transactionBatchEntry sample_parsed)
  ∧ (TransactionEntry.queueOrigin sample_entry = sequencer →
     TransactionEntry.target sample_entry
       = "0x4200000000000000000000000000000000000005"
     ∧ TransactionEntry.origin sample_entry = None
     ∧ TransactionEntry.gasLimit sample_entry = 8000000).
Proof.
  assert (@parseEvent sample_codec sample_ethers sample_event
            (sample_extraData sample_calldata 3) = Ok sample_parsed) as Hr
    by (vm_compute; reflexivity).
  assert (sample_entry ∈ ParsedEvent.transactionEntries sample_parsed)
    as Hin by apply list_elem_of_here.
  destruct (@parseEvent_entry_shape sample_codec sample_ethers sample_event
              (sample_extraData sample_calldata 3) sample_parsed sample_entry
              Hr Hin)
    as (Hbatch & _ & _ & Hseq).
  split_and!; [exact Hr | exact Hin | exact Hbatch | exact Hseq].
Defined.

Lemma parseEvent_queue_indices_witness :
  let extraData := sample_extraData sample_calldata 3 in
  @parseEvent sample_codec sample_ethers sample_event extraData
    = Ok sample_parsed
  ∧ read_contexts (fromHexString (ExtraData.l1TransactionData extraData))
    = Ok [sample_context]
  ∧ TransactionEntry.queueIndex
      <$> queue_origin_entries (ParsedEvent.transactionEntries sample_parsed)
    = (λ i, Some (3 + i)) <$> seqZ 0 (total_queued [sample_context]).
Proof.
  intros extraData.
  assert (@parseEvent sample_codec sample_ethers sample_event extraData
          = Ok sample_parsed) as Hr by (vm_compute; reflexivity).
  assert (read_contexts
            (fromHexString (ExtraData.l1TransactionData extraData))
          = Ok [sample_context]) as Hc by (vm_compute; reflexivity).
  split; [exact Hr |]. split; [exact Hc |].
  exact (proj1 (@parseEvent_queue_indices sample_codec sample_ethers
                  sample_event extraData sample_parsed [sample_context]
                  Hr Hc)).
Defined.

Lemma parseEvent_counts_witness :
  let extraData := sample_extraData sample_calldata 3 in
  @parseEvent sample_codec sample_ethers sample_event extraData
    = Ok sample_parsed
  ∧ read_contexts (fromHexString (ExtraData.l1TransactionData extraData))
    = Ok [sample_context]
  ∧ Z.of_nat (length (ParsedEvent.transactionEntries sample_parsed))
    = total_elements [sample_context]
  ∧ Z.of_nat (length (storeEvent sample_parsed))
    = 2 + total_queued [sample_context].
Proof.
  intros extraData.
  assert (@parseEvent sample_codec sample_ethers sample_event extraData
          = Ok sample_parsed) as Hr by (vm_compute; reflexivity).
  assert (read_contexts
            (fromHexString (ExtraData.l1TransactionData extraData))
          = Ok [sample_context]) as Hc by (vm_compute; reflexivity).
  destruct (@parseEvent_counts sample_codec sample_ethers sample_event
              extraData sample_parsed [sample_context] Hr Hc)
    as (Hall & _ & _ & Hstore).
  split_and!; [exact Hr | exact Hc | exact Hall | exact Hstore].
Defined.

Lemma parseEvent_calldata_length_witness :
  let extraData := sample_extraData sample_calldata 3 in
  let calldata := fromHexString (ExtraData.l1TransactionData extraData) in
  @parseEvent sample_codec sample_ethers sample_event extraData
    = Ok sample_parsed
  ∧ read_contexts calldata = Ok [sample_context]
  ∧ 12 < Z.of_nat (length calldata)
  ∧ (0 < total_sequenced [sample_context] →
     15 + 16 * Z.of_nat (length [sample_context])
       + 3 * (total_sequenced [sample_context] - 1)
     < Z.of_nat (length calldata)).
Proof.
  intros extraData calldata.
  assert (@parseEvent sample_codec sample_ethers sample_event extraData
          = Ok sample_parsed) as Hr by (vm_compute; reflexivity).
  assert (read_contexts calldata = Ok [sample_context]) as Hc
    by (vm_compute; reflexivity).
  destruct (@parseEvent_calldata_length sample_codec sample_ethers
              sample_event extraData sample_parsed [sample_context] Hr Hc)
    as (Hcount & _ & Hlast).
  split_and!; [exact Hr | exact Hc | exact Hcount | exact Hlast].
Defined.

Lemma parseEvent_ignores_header_witness :
  let extraData := sample_extraData sample_calldata 3 in
  let h1 := replicate 12 x00 in
  let h2 := fromHexString "0x8829a1d3000000000000000c" in
  let rest := drop 12 (fromHexString sample_calldata) in
  length h1 = 12%nat
  ∧ length h2 = 12%nat
  ∧ fromHexString (ExtraData.l1TransactionData extraData) = h1 ++ rest
  ∧ fromHexString selector_calldata = h2 ++ rest
  ∧ @parseEvent sample_codec sample_ethers sample_event
      (with_l1TransactionData extraData selector_calldata)
    = @parseEvent sample_codec sample_ethers sample_event extraData.
Proof.
  intros extraData h1 h2 rest.
  assert (length h1 = 12%nat) as Hh1 by reflexivity.
  assert (length h2 = 12%nat) as Hh2 by (vm_compute; reflexivity).
  assert (fromHexString (ExtraData.l1TransactionData extraData)
          = h1 ++ rest) as Hd1 by (vm_compute; reflexivity).
  assert (fromHexString selector_calldata = h2 ++ rest) as Hd2
    by (vm_compute; reflexivity).
  split_and!; [exact Hh1 | exact Hh2 | exact Hd1 | exact Hd2 |].
  exact (@parseEvent_ignores_header sample_codec sample_ethers sample_event
           extraData selector_calldata h1 h2 rest Hh1 Hh2 Hd1 Hd2).
Defined.

Lemma getExtraData_parseEvent_witness :
  let provider := sample_chain [sample_companion "0xabc" 3] in
  let extraData := sample_extraData sample_calldata 3 in
  @getTransaction provider sample_event
    = Ok (L1Transaction.mk "0xsequencer" "0xabc" sample_calldata)
  ∧ @getBlock provider sample_event = Ok (Block.mk 11000000 1600000000)
  ∧ @getExtraData provider sample_event = Ok extraData
  ∧ @parseEvent sample_codec sample_ethers sample_event extraData
    = Ok sample_parsed
  ∧ TransactionBatchEntry.blockNumber
      (ParsedEvent.transactionBatchEntry sample_parsed) = 11000000
  ∧ Forall (λ e, TransactionEntry.gasLimit e
                 = match TransactionEntry.queueOrigin e with
                   | sequencer => 8000000
                   | l1 => 0
                   end)
      (ParsedEvent.transactionEntries sample_parsed).
Proof.
  intros provider extraData.
  assert (@getExtraData provider sample_event = Ok extraData) as Hx
    by (vm_compute; reflexivity).
  assert (@parseEvent sample_codec sample_ethers sample_event extraData
          = Ok sample_parsed) as Hr by (vm_compute; reflexivity).
  destruct (@getExtraData_parseEvent sample_codec sample_ethers provider
              sample_event extraData sample_parsed
              (L1Transaction.mk "0xsequencer" "0xabc" sample_calldata)
              (Block.mk 11000000 1600000000)
              eq_refl eq_refl Hx Hr)
    as (Hnumber & _ & _ & _ & _ & Hgas).
  split_and!;
    [reflexivity | reflexivity | exact Hx | exact Hr | exact Hnumber
    | exact Hgas].
Defined.
